(** * RecordMuse: the signal-processing pipeline, embedded and verified

    A shallow embedding of the numerical core of the RecordMuse scripts:
    - [processing/convert.py]   timestamp reconciliation and de-duplication,
    - [processing/filter.py]    NaN interpolation, de-meaning, zero-phase filters,
    - [analysis/psd.py]         spectrogram and band-power aggregation,
    - [processing/normalize.py] baseline z-scoring
      ([src/normalize.py] holds the same computation) and the text
      histogram,
    - [analysis/validate.py]    runs of repeated rows,
    - [record/record.py]        the producer and consumer of one stream.

    Numbers.  The scripts compute on numpy [float64] arrays.  A sample is
    modelled as a [value]: either the missing marker [NaN] or a finite
    number, carried as an exact rational.  Rounding is not modelled there;
    the transcendental functions of numpy ([sqrt], [log10], [10 ** x]) and
    the FFT of scipy are parameters of the sections that use them.  Where a
    statement would hold of exact numbers only, the lines of the script it
    is about are run on binary64 as well ([Binary64]).

    Failure.  A Python exception is a [Raise] in the [result] monad. *)

From Stdlib Require Import List String Ascii Bool Arith ZArith QArith Lia Lqa.
From Stdlib Require Import Qminmax Qround OrdersEx Sorted.
From Stdlib Require Floats.
Import ListNotations.

Open Scope string_scope.
Open Scope list_scope.
Open Scope Q_scope.

(* ================================================================= *)
(** ** Exceptions *)

Module Py.

(** The exceptions of the scripts.  [OutsideModel] is no Python exception:
    it ends a modelled run at a value the model's numbers do not include
    (an infinity, see [Np.divide]); what the program does from there on is
    not modelled. *)
Inductive error : Type :=
| KeyError (key : string)
| TypeError
| IndexError
| ValueError (msg : string)
| OutsideModel (what : string).

Inductive result (A : Type) : Type :=
| Ok (a : A)
| Raise (e : error).

Arguments Ok {A} a.
Arguments Raise {A} e.

Definition bind {A B : Type} (m : result A) (k : A -> result B) : result B :=
  match m with
  | Ok a => k a
  | Raise e => Raise e
  end.

Definition raises {A : Type} (m : result A) : Prop :=
  exists e, m = Raise e.

(** A Python loop whose body may raise: the first exception ends it. *)
Fixpoint mapM {A B : Type} (f : A -> result B) (l : list A) : result (list B) :=
  match l with
  | [] => Ok []
  | x :: r =>
      match f x with
      | Raise e => Raise e
      | Ok y => match mapM f r with
                | Raise e => Raise e
                | Ok ys => Ok (y :: ys)
                end
      end
  end.

End Py.
Import Py.

Notation "x <- m ;; k" := (bind m (fun x => k))
  (at level 61, m at next level, right associativity).

(* ================================================================= *)
(** ** Samples and arrays *)

Module Np.

(** A [float64] cell: the missing marker or a finite number. *)
Inductive value : Type :=
| NaN
| Fin (q : Q).

Definition isnan (v : value) : bool :=
  match v with NaN => true | Fin _ => false end.

(** [x[~np.isnan(x)]]: the finite entries, in order. *)
Fixpoint dropna (xs : list value) : list Q :=
  match xs with
  | [] => []
  | NaN :: r => dropna r
  | Fin q :: r => q :: dropna r
  end.

(** Arithmetic propagates the missing marker. *)
Definition sub (a b : value) : value :=
  match a, b with
  | Fin x, Fin y => Fin (x - y)
  | _, _ => NaN
  end.

(** numpy's [a / b] never raises: a finite number over zero is an
    infinity, and [nan] for 0/0 (with a warning).  The model has no
    infinities.  [infinite_quotient a b] says that the quotient is one;
    [div a b] is the quotient wherever it is a number or [nan]; and
    [divide a b] is the division as the scripts perform it on arbitrary
    operands: it leaves the model where numpy stores an infinity. *)
Definition infinite_quotient (a b : value) : bool :=
  match a, b with
  | Fin x, Fin y => Qeq_bool y 0 && negb (Qeq_bool x 0)
  | _, _ => false
  end.

Definition div (a b : value) : value :=
  match a, b with
  | Fin x, Fin y => if Qeq_bool y 0 then NaN else Fin (x / y)
  | _, _ => NaN
  end.

Definition divide (a b : value) : result value :=
  if infinite_quotient a b then Raise (OutsideModel "infinity")
  else Ok (div a b).

Definition add (a b : value) : value :=
  match a, b with
  | Fin x, Fin y => Fin (x + y)
  | _, _ => NaN
  end.

(** A finite coefficient times a sample. *)
Definition scale (c : Q) (a : value) : value :=
  match a with
  | Fin x => Fin (c * x)
  | NaN => NaN
  end.

Definition Qsum (xs : list Q) : Q := fold_left Qplus xs 0.

(** [np.mean(x)]: a missing sample makes the mean missing, and so does
    an empty array. *)
Definition mean (xs : list value) : value :=
  if existsb isnan xs then NaN
  else match xs with
       | [] => NaN
       | _ => Fin (Qsum (dropna xs) / inject_Z (Z.of_nat (List.length xs)))
       end.

Definition of_nat (n : nat) : Q := inject_Z (Z.of_nat n).

End Np.
Import Np.

(* ================================================================= *)
(** ** Tables *)

Module Frame.

(** A column read by [pd.read_csv]: numeric, or text (object dtype). *)
Inductive column : Type :=
| NumCol (xs : list value)
| StrCol (ss : list string).

(** A DataFrame: its columns in order, each under its label.  The columns
    of a pandas DataFrame have one common number of rows; the type does not
    say so, [well_formed] (below, with the vocabulary of the statements)
    does, and a statement that depends on it assumes it. *)
Definition DataFrame : Type := list (string * column).

Fixpoint get (df : DataFrame) (name : string) : result column :=
  match df with
  | [] => Raise (KeyError name)
  | (c, col) :: r => if String.eqb c name then Ok col else get r name
  end.

(** [df[name].to_numpy()] used as an array of floats. *)
Definition to_numpy (df : DataFrame) (name : string) : result (list value) :=
  col <- get df name ;;
  match col with
  | NumCol xs => Ok xs
  | StrCol _ => Raise TypeError
  end.

Definition labels (df : DataFrame) : list string := map fst df.

End Frame.
Import Frame.

(* ================================================================= *)
(** ** processing/convert.py *)

Module Convert.

(** [estimate_sample_rate_duration(df, timestamp_col, is_milli)] *)
Definition estimate_sample_rate_duration
    (df : DataFrame) (timestamp_col : string) (is_milli : bool) : result Q :=
  ts <- to_numpy df timestamp_col ;;
  let ts := dropna ts in
  if (List.length ts <? 2)%nat then
    Raise (ValueError "Not enough timestamps to estimate sample rate.")
  else
    let duration_sec := last ts 0 - hd 0 ts in
    let duration_sec := if is_milli then duration_sec / 1000 else duration_sec in
    let n_samples := List.length ts in
    if Qle_bool duration_sec 0 then
      Raise (ValueError "Non-positive duration detected.")
    else
      let fs_est := (of_nat n_samples - 1) / duration_sec in
      Ok fs_est.

(** One row of a stream table ([eeg_raw], [accel_raw], [gyro_raw]): the
    grouping key [TimeStamp] (the wall-clock string) and the numeric
    cells of the other selected columns, in column order. *)
Record row : Type := mkRow {
  TimeStamp : string;
  cells : list value
}.

(** The keys of [groupby('TimeStamp')]: pandas sorts the distinct key
    values ([sort=True]); text keys compare by character code. *)
Fixpoint insert_key (k : string) (ks : list string) : list string :=
  match ks with
  | [] => [k]
  | h :: t =>
      match String_as_OT.compare k h with
      | Lt => k :: ks
      | Eq => ks
      | Gt => h :: insert_key k t
      end
  end.

Definition group_keys (rows : list row) : list string :=
  fold_right insert_key [] (map TimeStamp rows).

(** The rows of one group, in table order. *)
Definition group (k : string) (rows : list row) : list row :=
  filter (fun r => String.eqb (TimeStamp r) k) rows.

(** [GroupBy.last()] and [GroupBy.first()] work column by column and skip
    missing cells: the last (first) non-null entry of the column within
    the group, null when the group has none. *)
Definition last_valid (xs : list value) : value :=
  fold_left (fun acc x => if isnan x then acc else x) xs NaN.

Definition first_valid (xs : list value) : value :=
  fold_right (fun x acc => if isnan x then acc else x) NaN xs.

Definition cell (j : nat) (r : row) : value := nth j (cells r) NaN.

Definition width (rows : list row) : nat :=
  match rows with
  | [] => O
  | r :: _ => List.length (cells r)
  end.

Definition aggregate (agg : list value -> value) (k : string) (rows : list row) : row :=
  let g := group k rows in
  mkRow k (map (fun j => agg (map (cell j) g)) (seq 0 (width rows))).

Definition groupby_last (rows : list row) : list row :=
  map (fun k => aggregate last_valid k rows) (group_keys rows).

Definition groupby_first (rows : list row) : list row :=
  map (fun k => aggregate first_valid k rows) (group_keys rows).

(** The default of the keyword argument [groupby_choice]. *)
Definition groupby_choice_default : string := "last".

(** [groups.last() if groupby_choice == 'last' else groups.first()] *)
Definition dedup (groupby_choice : string) (rows : list row) : list row :=
  if String.eqb groupby_choice "last" then groupby_last rows
  else groupby_first rows.

(** [mm_to_bluemuse], lines 144 to 152: the three stream tables cut out
    of the sorted signal rows are de-duplicated under one
    [groupby_choice]. *)
Definition mm_to_bluemuse (groupby_choice : string)
    (eeg_raw accel_raw gyro_raw : list row) : list row * list row * list row :=
  let eeg := dedup groupby_choice eeg_raw in
  let accel := dedup groupby_choice accel_raw in
  let gyro := dedup groupby_choice gyro_raw in
  (eeg, accel, gyro).

(** The rule in the words of the specification: of the rows that share
    a key, the last (first) occurrence is kept whole. *)
Definition spec_keep_last (rows : list row) : list row :=
  map (fun k => last (group k rows) (mkRow k [])) (group_keys rows).

Definition spec_keep_first (rows : list row) : list row :=
  map (fun k => hd (mkRow k []) (group k rows)) (group_keys rows).

End Convert.

(* ================================================================= *)
(** ** processing/filter.py *)

Module Filter.

(** The module-level names of lines 12 to 20: globals, which the stage
    reads when it runs.  The model fixes them at the values the file
    assigns; a caller that rebinds them from outside is not modelled. *)
Definition FS : Q := 256.
Definition NOTCH_FREQ : Q := 60.
Definition NOTCH_Q : Q := 25.
Definition BANDPASS_LOW : Q := 1.
Definition BANDPASS_HIGH : Q := 40.
Definition BANDPASS_ORDER : nat := 4.
Definition EEG_CHANNELS : list string := ["TP9"; "AF7"; "AF8"; "TP10"; "Right AUX"].

(** *** numpy: [np.interp(x, xp, fp)]

    [xp] increasing.  Left of [xp[0]] the value is [fp[0]], right of
    [xp[-1]] it is [fp[-1]]; in between, with [xp[j] <= x < xp[j+1]],
    it is [fp[j]] when [x] sits on the sample point and
    [slope * (x - xp[j]) + fp[j]] otherwise. *)
Fixpoint interp_from (x xj fj : Q) (xp fp : list Q) : Q :=
  match xp, fp with
  | x1 :: xp', f1 :: fp' =>
      if Qle_bool x1 x then interp_from x x1 f1 xp' fp'
      else if Qeq_bool x xj then fj
      else ((f1 - fj) / (x1 - xj)) * (x - xj) + fj
  | _, _ => fj
  end.

Definition interp1 (x : Q) (xp fp : list Q) : result Q :=
  match xp, fp with
  | x0 :: xp', f0 :: fp' =>
      if negb (Qle_bool x (last xp x0)) then Ok (last fp f0)
      else if negb (Qle_bool x0 x) then Ok f0
      else Ok (interp_from x x0 f0 xp' fp')
  | _, _ => Raise (ValueError "array of sample points is empty")
  end.

Fixpoint interp (xs xp fp : list Q) : result (list Q) :=
  match xs with
  | [] => match xp with
          | [] => Raise (ValueError "array of sample points is empty")
          | _ => Ok []
          end
  | x :: r =>
      v <- interp1 x xp fp ;;
      vs <- interp r xp fp ;;
      Ok (v :: vs)
  end.

(** [idx[mask]] for [idx = np.arange(len(x))], counted from [i]. *)
Fixpoint where_nan (i : nat) (x : list value) : list Q :=
  match x with
  | [] => []
  | NaN :: r => of_nat i :: where_nan (S i) r
  | Fin _ :: r => where_nan (S i) r
  end.

Fixpoint where_valid (i : nat) (x : list value) : list Q :=
  match x with
  | [] => []
  | NaN :: r => where_valid (S i) r
  | Fin _ :: r => of_nat i :: where_valid (S i) r
  end.

(** [x[nans] = vals]: the missing cells take the values in order. *)
Fixpoint assign_nans (x : list value) (vals : list Q) : list value :=
  match x with
  | [] => []
  | Fin q :: r => Fin q :: assign_nans r vals
  | NaN :: r =>
      match vals with
      | v :: vals' => Fin v :: assign_nans r vals'
      | [] => NaN :: assign_nans r []
      end
  end.

(** [interpolate_nans(x)] *)
Definition interpolate_nans (x : list value) : result (list value) :=
  if negb (existsb isnan x) then Ok x
  else
    vals <- interp (where_nan 0 x) (where_valid 0 x) (dropna x) ;;
    Ok (assign_nans x vals).

(** [x - np.mean(x)] *)
Definition demean (x : list value) : list value :=
  let m := mean x in
  map (fun v => sub v m) x.

(** *** scipy: [lfilter(b, a, x, zi=zi)]

    The difference equation in transposed direct form II.  With [n] the
    longer of the two coefficient lists, both padded with zeros to [n]
    and divided by [a[0]], and [z] the [n - 1] delay cells:
    [y = b[0]*x + z[0]], then [z[i] = b[i+1]*x + z[i+1] - a[i+1]*y],
    the last cell having no successor. *)
Definition pad (n : nat) (c : list Q) : list Q :=
  c ++ repeat 0 (n - List.length c).

Fixpoint delays (bt av : list Q) (zt : list value) (x y : value) : list value :=
  match bt, av with
  | bi :: bt', ai :: av' =>
      add (add (scale bi x) (hd (Fin 0) zt)) (scale (- ai) y)
        :: delays bt' av' (tl zt) x y
  | _, _ => []
  end.

Definition lfilter_step (b a : list Q) (z : list value) (x : value)
    : value * list value :=
  let y := add (scale (hd 0 b) x) (hd (Fin 0) z) in
  (y, delays (tl b) (tl a) (tl z) x y).

Fixpoint lfilter_run (b a : list Q) (z : list value) (x : list value)
    : list value * list value :=
  match x with
  | [] => ([], z)
  | x0 :: r =>
      let (y0, z') := lfilter_step b a z x0 in
      let (ys, zf) := lfilter_run b a z' r in
      (y0 :: ys, zf)
  end.

Definition lfilter (b a : list Q) (x : list value) (zi : list value)
    : result (list value * list value) :=
  let n := Nat.max (List.length a) (List.length b) in
  match a with
  | [] => Raise (ValueError "a must have at least one coefficient")
  | a0 :: _ =>
      if Qeq_bool a0 0 then Raise (ValueError "a[0] == 0 is not supported")
      else if negb (List.length zi =? n - 1)%nat then
        Raise (ValueError "unexpected shape for zi")
      else
        let b' := map (fun c => c / a0) (pad n b) in
        let a' := map (fun c => c / a0) (pad n a) in
        Ok (lfilter_run b' a' zi x)
  end.

(** *** scipy: [filtfilt(b, a, x)] with its defaults
    ([padtype='odd'], [padlen=None], [method='pad']) *)

(** [odd_ext(x, n)]: the signal mirrored about its end points,
    [2*x[0] - x[n:0:-1]] before and [2*x[-1] - x[-2:-(n+2):-1]] after. *)
Definition odd_ext (x : list value) (n : nat) : list value :=
  let len := List.length x in
  let left_end := hd NaN x in
  let right_end := last x NaN in
  map (fun v => sub (scale 2 left_end) v) (rev (firstn n (skipn 1 x)))
    ++ x
    ++ map (fun v => sub (scale 2 right_end) v)
         (rev (firstn n (skipn (len - 1 - n) x))).

(** scipy: [lfilter_zi(b, a)], the steady state of the delay cells for a
    unit step, by the explicit solution of [(I - A^T) zi = B] that scipy's
    source records next to its call of the linear solver:
    [zi[0] = sum(B) / sum(a)] and [zi[k] = (1 + a[1] + .. + a[k]) * zi[0]
    - (B[0] + .. + B[k-1])], for coefficients normalised by [a[0]] and
    [B = b[1:] - a[1:] * b[0]]. *)
Fixpoint zi_tail (asum csum z0 b0 : Q) (bt av : list Q) : list Q :=
  match bt, av with
  | bk :: bt', ak :: av' =>
      let asum := asum + ak in
      let csum := csum + (bk - ak * b0) in
      match bt' with
      | [] => []
      | _ => (asum * z0 - csum) :: zi_tail asum csum z0 b0 bt' av'
      end
  | _, _ => []
  end.

Definition lfilter_zi_explicit (b a : list Q) : result (list Q) :=
  let n := Nat.max (List.length a) (List.length b) in
  let a0 := hd 0 a in
  if Qeq_bool a0 0 then Raise (ValueError "a[0] must be nonzero")
  else
    let b' := map (fun c => c / a0) (pad n b) in
    let a' := map (fun c => c / a0) (pad n a) in
    let Bs := map (fun ba => fst ba - snd ba * hd 0 b') (combine (tl b') (tl a')) in
    if Qeq_bool (Qsum a') 0 then Raise (ValueError "Singular matrix")
    else
      match Bs with
      | [] => Ok []
      | _ =>
          let z0 := Qsum Bs / Qsum a' in
          Ok (z0 :: zi_tail 1 0 z0 (hd 0 b') (tl b') (tl a'))
      end.

Section Scipy.

(** The filter designers and the steady-state solver of scipy: their
    results are irrational in general and enter as parameters.
    [iirnotch(w0, Q, fs)] and [butter(N, [low, high], fs, btype='band')]
    return the pair [(b, a)]; [lfilter_zi(b, a)] raises on a singular
    system. *)
Variable iirnotch : Q -> Q -> Q -> list Q * list Q.
Variable butter : nat -> Q -> Q -> Q -> list Q * list Q.
Variable lfilter_zi : list Q -> list Q -> result (list Q).

Definition filtfilt (b a : list Q) (x : list value) : result (list value) :=
  let ntaps := Nat.max (List.length a) (List.length b) in
  let edge := (ntaps * 3)%nat in
  if (List.length x <=? edge)%nat then
    Raise (ValueError "The length of the input vector x must be greater than padlen")
  else
    let ext := odd_ext x edge in
    zi <- lfilter_zi b a ;;
    let x0 := hd NaN ext in
    yz <- lfilter b a ext (map (fun z => scale z x0) zi) ;;
    let y := fst yz in
    let y0 := last y NaN in
    yz <- lfilter b a (rev y) (map (fun z => scale z y0) zi) ;;
    let y := rev (fst yz) in
    Ok (firstn (List.length y - 2 * edge) (skipn edge y)).

(** The two filters of the channel loop of [filter_eeg], lines 87 to 91:
    the notch, then the band-pass if prompted. *)
Definition apply_filters (b_notch a_notch b_bp a_bp : list Q)
    (apply_bandpass : bool) (x : list value) : result (list value) :=
  x <- filtfilt b_notch a_notch x ;;
  if apply_bandpass then filtfilt b_bp a_bp x else Ok x.

(** The body of the channel loop of [filter_eeg], lines 79 to 93. *)
Definition filter_channel (b_notch a_notch b_bp a_bp : list Q)
    (apply_bandpass : bool) (x : list value) : result (list value) :=
  let x := demean x in
  apply_filters b_notch a_notch b_bp a_bp apply_bandpass x.

(** [raise ValueError(f"Missing EEG channel: {ch}")] *)
Fixpoint check_channels (df : DataFrame) (chs : list string) : result unit :=
  match chs with
  | [] => Ok tt
  | ch :: r =>
      if existsb (String.eqb ch) (labels df) then check_channels df r
      else Raise (ValueError ("Missing EEG channel: " ++ ch))
  end.

(** [df_filtered[EEG_CHANNELS] = filtered] *)
Fixpoint assign (df : DataFrame) (chs : list string) (cols : list (list value))
    : DataFrame :=
  match chs, cols with
  | ch :: chs', col :: cols' =>
      assign
        (map (fun lc => if String.eqb (fst lc) ch then (ch, NumCol col) else lc) df)
        chs' cols'
  | _, _ => df
  end.

(** [filter_eeg(eeg_csv_path, apply_bandpass, verbose)] on the table read
    from the file; the result is the table written to [_filtered.csv]. *)
Definition filter_eeg (df : DataFrame) (apply_bandpass : bool) : result DataFrame :=
  _ <- check_channels df EEG_CHANNELS ;;
  eeg_data <- mapM (to_numpy df) EEG_CHANNELS ;;
  eeg_data <- mapM interpolate_nans eeg_data ;;
  let (b_notch, a_notch) := iirnotch NOTCH_FREQ NOTCH_Q FS in
  let (b_bp, a_bp) := butter BANDPASS_ORDER BANDPASS_LOW BANDPASS_HIGH FS in
  filtered <- mapM (filter_channel b_notch a_notch b_bp a_bp apply_bandpass) eeg_data ;;
  Ok (assign df EEG_CHANNELS filtered).

End Scipy.

End Filter.

(* ================================================================= *)
(** ** analysis/psd.py *)

Module Psd.

(** The module-level names of lines 16 to 33: globals, which the stages
    read when they run.  The model fixes them at the values the file
    assigns; a caller that rebinds them from outside is not modelled. *)
Definition CHANNELS : list string := ["AF7"; "AF8"; "TP9"; "TP10"].

Definition BANDS : list (string * (Q * Q)) :=
  [("delta", (1, 4)); ("theta", (4, 8)); ("alpha", (9, 13));
   ("beta", (13, 30)); ("gamma", (30, 200))].

Definition SAMPLE_RATE : Q := 256.
Definition WINDOW_SIZE : nat := 256.
Definition SLIDE_RATE : nat := 22.

(** A power grid [Sxx[frequency bin][time frame]], row by row. *)
Definition grid : Type := list (list value).

(** [np.fft.rfftfreq(n, 1/fs)] *)
Definition rfftfreq (n : nat) (fs : Q) : list Q :=
  map (fun k => of_nat k * (1 / (of_nat n * (1 / fs)))) (seq 0 (S (n / 2))).

(** [np.arange(nperseg/2, n - nperseg/2 + 1, step) / fs] for the [nseg]
    segments that fit. *)
Definition frame_times (nseg nperseg step : nat) (fs : Q) : list Q :=
  map (fun i => (of_nat nperseg / 2 + of_nat i * of_nat step) / fs) (seq 0 nseg).

Definition segment (x : list value) (nperseg start : nat) : list value :=
  firstn nperseg (skipn start x).

(** Columns to rows: bin [k] of every segment estimate. *)
Definition transpose (nbins : nat) (cols : list (list value)) : grid :=
  map (fun k => map (fun c => nth k c NaN) cols) (seq 0 nbins).

Definition lift (f : Q -> value) (v : value) : value :=
  match v with
  | NaN => NaN
  | Fin q => f q
  end.

Section Scipy.

(** [get_window(name, n)] (cosine tapers) and the density-scaled,
    mean-detrended periodogram of one windowed segment (an FFT) are
    parameters, and so are numpy's [log10] and [10 ** x]. *)
Variable get_window : string -> nat -> list Q.
Variable periodogram : Q -> list Q -> list value -> list value.
Variable log10 : Q -> value.
Variable pow10 : Q -> Q.

(** scipy: [spectrogram(x, fs, window, nperseg, noverlap,
    scaling='density', mode='psd')] with an array for [window]. *)
Definition spectrogram (x : list value) (fs : Q) (window : list Q)
    (nperseg noverlap : nat) : result (list Q * list Q * grid) :=
  if (List.length x <? List.length window)%nat then
    Raise (ValueError "window is longer than input signal")
  else if negb (List.length window =? nperseg)%nat then
    Raise (ValueError "value specified for nperseg is different from length of window")
  else if (nperseg <=? noverlap)%nat then
    Raise (ValueError "noverlap must be less than nperseg.")
  else
    let step := (nperseg - noverlap)%nat in
    let nseg := ((List.length x - noverlap) / step)%nat in
    let f := rfftfreq nperseg fs in
    let t := frame_times nseg nperseg step fs in
    let cols :=
      map (fun i => periodogram fs window (segment x nperseg (i * step)))
          (seq 0 nseg) in
    Ok (f, t, transpose (S (nperseg / 2)) cols).

(** The state of the channel loop of [compute_muse_psd]. *)
Record psd_state : Type := mkState {
  psd : list (string * grid);
  freqs : option (list Q);
  times : option (list Q)
}.

Definition psd_channel (df : DataFrame) (win : list Q) (st : psd_state)
    (ch : string) : result psd_state :=
  x <- to_numpy df ch ;;
  ftS <- spectrogram x SAMPLE_RATE win WINDOW_SIZE (WINDOW_SIZE - SLIDE_RATE) ;;
  let '(f, t, Sxx) := ftS in
  let Sxx_dB :=
    map (map (fun v => scale 10 (lift log10 (add v (Fin (1 # 1000000000000)))))) Sxx in
  let psd' := psd st ++ [(ch, Sxx_dB)] in
  match freqs st with
  | None => Ok (mkState psd' (Some f) (Some t))
  | Some _ => Ok (mkState psd' (freqs st) (times st))
  end.

Fixpoint psd_loop (df : DataFrame) (win : list Q) (st : psd_state)
    (chs : list string) : result psd_state :=
  match chs with
  | [] => Ok st
  | ch :: r =>
      st' <- psd_channel df win st ch ;;
      psd_loop df win st' r
  end.

(** [compute_muse_psd(df)] *)
Definition compute_muse_psd (df : DataFrame)
    : result (option (list Q) * option (list Q) * list (string * grid)) :=
  let win := get_window "hamming" WINDOW_SIZE in
  st <- psd_loop df win (mkState [] None None) CHANNELS ;;
  Ok (freqs st, times st, psd st).

(** [np.where((freqs >= fmin) & (freqs <= fmax))[0]], counted from [i]. *)
Fixpoint band_bins (i : nat) (fr : list Q) (fmin fmax : Q) : list nat :=
  match fr with
  | [] => []
  | f :: r =>
      if Qle_bool fmin f && Qle_bool f fmax
      then i :: band_bins (S i) r fmin fmax
      else band_bins (S i) r fmin fmax
  end.

(** [Sxx_linear[idx, :]] *)
Definition take_rows (g : grid) (idx : list nat) : result grid :=
  mapM (fun i => match nth_error g i with
                 | Some r => Ok r
                 | None => Raise IndexError
                 end) idx.

Fixpoint add_rows (a b : list value) : list value :=
  match a, b with
  | x :: a', y :: b' => add x y :: add_rows a' b'
  | _, _ => []
  end.

(** [np.sum(rows, axis=0)] for a grid with at least one row. *)
Definition sum_axis0 (rows : grid) : list value :=
  fold_left add_rows rows (repeat (Fin 0) (List.length (hd [] rows))).

Definition record : Type := (Q * string * string * value)%type.

Definition band_records (fr tm : list Q) (ch : string) (Sxx_linear : grid)
    (b : string * (Q * Q)) : result (list record) :=
  let '(band, (fmin, fmax)) := b in
  let idx := band_bins 0 fr fmin fmax in
  match idx with
  | [] => Ok []
  | _ =>
      rows <- take_rows Sxx_linear idx ;;
      let band_power := sum_axis0 rows in
      let band_power_log :=
        map (fun v => lift log10 (add v (Fin (1 # 1000000000000)))) band_power in
      Ok (map (fun tv => (fst tv, ch, band, snd tv)) (combine tm band_power_log))
  end.

Definition channel_records (fr tm : list Q) (item : string * grid)
    : result (list record) :=
  let (ch, Sxx_dB) := item in
  let Sxx_linear := map (map (lift (fun q => Fin (pow10 (q / 10))))) Sxx_dB in
  recs <- mapM (band_records fr tm ch Sxx_linear) BANDS ;;
  Ok (List.concat recs).

(** [compute_bandpowers_time_series(freqs, times, psd)] *)
Definition compute_bandpowers_time_series (fr tm : list Q)
    (psd : list (string * grid)) : result (list record) :=
  recs <- mapM (channel_records fr tm) psd ;;
  Ok (List.concat recs).

End Scipy.

End Psd.

(* ================================================================= *)
(** ** processing/normalize.py

    [src/normalize.py] builds [exp_norm] with the same statements (its
    lines 7 to 45). *)

Module Normalize.

Definition TIMESTAMP_COLUMNS : list string :=
  ["TimeStamp"; "unix_ms"; "unix_ts"; "lsl_unix_ts"].

Definition mem (c : string) (l : list string) : bool :=
  existsb (String.eqb c) l.

(** pandas reductions skip missing cells ([skipna=True]) and are missing
    themselves when nothing is left. *)
Definition min_skipna (xs : list value) : value :=
  match dropna xs with
  | [] => NaN
  | q :: r => Fin (fold_left Qmin r q)
  end.

Definition max_skipna (xs : list value) : value :=
  match dropna xs with
  | [] => NaN
  | q :: r => Fin (fold_left Qmax r q)
  end.

Definition mean_skipna (xs : list value) : value :=
  match dropna xs with
  | [] => NaN
  | qs => Fin (Qsum qs / of_nat (List.length qs))
  end.

(** Comparisons with a missing cell are false. *)
Definition ge (a b : value) : bool :=
  match a, b with
  | Fin x, Fin y => Qle_bool y x
  | _, _ => false
  end.

Definition le (a b : value) : bool :=
  match a, b with
  | Fin x, Fin y => Qle_bool x y
  | _, _ => false
  end.

(** Boolean-mask row selection on one column. *)
Fixpoint select {A : Type} (keep : list bool) (xs : list A) : list A :=
  match keep, xs with
  | k :: keep', x :: xs' => if k then x :: select keep' xs' else select keep' xs'
  | _, _ => []
  end.

(** [baseline_std[baseline_std == 0] = np.nan] *)
Definition mask_zero (s : value) : value :=
  match s with
  | Fin q => if Qeq_bool q 0 then NaN else Fin q
  | NaN => NaN
  end.

Section Numpy.

Variable sqrt : Q -> Q.

(** [std(ddof=0)]: the population standard deviation of the cells
    that are present. *)
Definition std_ddof0 (xs : list value) : value :=
  match dropna xs with
  | [] => NaN
  | qs =>
      let n := of_nat (List.length qs) in
      let m := Qsum qs / n in
      Fin (sqrt (Qsum (map (fun q => (q - m) * (q - m)) qs) / n))
  end.

Definition channel_cols (rest_df : DataFrame) : list string :=
  filter (fun c => negb (mem c TIMESTAMP_COLUMNS)) (labels rest_df).

(** The rows of the reference kept by the edge culling. *)
Definition cull (ts : list value) (start_buffer end_buffer : Q) : list bool :=
  let t_start := add (min_skipna ts) (Fin start_buffer) in
  let t_end := sub (max_skipna ts) (Fin end_buffer) in
  map (fun t => ge t t_start && le t t_end) ts.

(** One entry of [baseline_mean] and of [baseline_std] (zero masked). *)
Definition baseline (rest_df : DataFrame) (keep : list bool) (c : string)
    : result (string * (value * value)) :=
  x <- to_numpy rest_df c ;;
  let mid := select keep x in
  Ok (c, (mean_skipna mid, mask_zero (std_ddof0 mid))).

Fixpoint lookup (c : string) (stats : list (string * (value * value)))
    : option (value * value) :=
  match stats with
  | [] => None
  | (k, ms) :: r => if String.eqb k c then Some ms else lookup c r
  end.

Definition zscore (ms : value * value) (raw : value) : result value :=
  divide (sub raw (fst ms)) (snd ms).

Definition normalize_column (stats : list (string * (value * value)))
    (lc : string * column) : result (string * column) :=
  match lookup (fst lc) stats with
  | None => Ok lc
  | Some ms =>
      match snd lc with
      | NumCol xs =>
          cells <- mapM (zscore ms) xs ;;
          Ok (fst lc, NumCol cells)
      | StrCol _ => Raise TypeError
      end
  end.

(** [normalize(rest_src, exp_src, ts_col, start_buffer, end_buffer)] on
    the two tables read from the files; the result is [exp_norm], the
    table written to [_normalized.csv]. *)
Definition normalize (rest_df exp_df : DataFrame) (ts_col : string)
    (start_buffer end_buffer : Q) : result DataFrame :=
  let cols := channel_cols rest_df in
  let missing := filter (fun c => negb (mem c (labels exp_df))) cols in
  match missing with
  | _ :: _ => Raise (ValueError "Experimental CSV missing channels")
  | [] =>
      ts <- to_numpy rest_df ts_col ;;
      let keep := cull ts start_buffer end_buffer in
      if (List.length (filter id keep) =? 0)%nat then
        Raise (ValueError "Rest EEG empty after culling")
      else
        stats <- mapM (baseline rest_df keep) cols ;;
        mapM (normalize_column stats) exp_df
  end.

End Numpy.

End Normalize.

(* ================================================================= *)
(** ** Vocabulary of the statements *)

Import Convert Filter Psd Normalize.

(** A table is rectangular when every row has the width of the first, and
    a row is complete when none of its cells is missing. *)
Definition rectangular (rows : list row) : Prop :=
  Forall (fun r => List.length (cells r) = width rows) rows.

Definition complete (r : row) : Prop :=
  Forall (fun v => isnan v = false) (cells r).

(** Samples are compared as numbers: a sample equals [c] when it is
    present and its value is the rational [c]. *)
Definition equals (c : Q) (v : value) : Prop :=
  match v with
  | Fin q => q == c
  | NaN => False
  end.




(** The channels the spectral estimator can work on: each one a numeric
    column of at least one window of samples. *)
Definition estimable (df : DataFrame) (chs : list string) : Prop :=
  forall ch, In ch chs ->
    exists x, to_numpy df ch = Ok x /\ (WINDOW_SIZE <= List.length x)%nat.

(** The number of windows that fit a channel of [n] samples. *)
Definition frames (n : nat) : nat :=
  ((n - (WINDOW_SIZE - SLIDE_RATE)) / SLIDE_RATE)%nat.

(** Stand-ins for the numeric library functions, to run the estimator on
    concrete recordings: the all-ones window, a spectrum estimate that is
    zero in each of its [n/2 + 1] bins, and a logarithm that is zero.  The
    axes the estimator returns do not depend on them. *)
Definition flat_window (name : string) (n : nat) : list Q := repeat 1 n.

Definition flat_spectrum (fs : Q) (win : list Q) (seg : list value) : list value :=
  repeat (Fin 0) (S (List.length win / 2)).

Definition flat_log (q : Q) : value := Fin 0.

(** A recording of zeros with the given number of samples per channel. *)
Definition recording (n_af7 n_af8 n_tp9 n_tp10 : nat) : DataFrame :=
  [("AF7", NumCol (repeat (Fin 0) n_af7)); ("AF8", NumCol (repeat (Fin 0) n_af8));
   ("TP9", NumCol (repeat (Fin 0) n_tp9)); ("TP10", NumCol (repeat (Fin 0) n_tp10))].

(** Band power in the words of the specification.  The floor [eps]; the
    frequency bins whose centre lies within [[fmin, fmax]]; the linear power
    [10^(dB/10)] of a decibel value; [S], the sum of the linear power of
    those bins at time frame [j]; and the rows emitted for one channel and
    one band: none when no bin matches, else one per time frame, holding
    [log10(S + eps)]. *)
Definition floor_eps : Q := 1 # 1000000000000.

Definition bins_within (fr : list Q) (fmin fmax : Q) : list nat :=
  filter (fun i => Qle_bool fmin (nth i fr 0) && Qle_bool (nth i fr 0) fmax)
         (seq 0 (List.length fr)).

Definition linear_power (pow10 : Q -> Q) (dB : value) : value :=
  lift (fun q => Fin (pow10 (q / 10))) dB.

Definition band_power (pow10 : Q -> Q) (fr : list Q) (g : grid)
    (fmin fmax : Q) (j : nat) : value :=
  fold_left add
    (map (fun i => linear_power pow10 (nth j (nth i g []) NaN)) (bins_within fr fmin fmax))
    (Fin 0).

Definition band_rows (log10 : Q -> value) (pow10 : Q -> Q) (fr tm : list Q)
    (ch : string) (g : grid) (b : string * (Q * Q)) : list record :=
  match bins_within fr (fst (snd b)) (snd (snd b)) with
  | [] => []
  | _ =>
      map (fun j =>
             (nth j tm 0, ch, fst b,
              lift log10 (add (band_power pow10 fr g (fst (snd b)) (snd (snd b)) j)
                              (Fin floor_eps))))
          (seq 0 (List.length tm))
  end.

(** A grid fits the axes when it has a row for every frequency bin and a
    cell in every row for every time frame. *)
Definition fits_axes (fr tm : list Q) (g : grid) : Prop :=
  (List.length fr <= List.length g)%nat
  /\ Forall (fun r => List.length r = List.length tm) g.

(** The baseline in the words of the specification: the reference
    samples of a channel that the edge culling retains, their mean, their
    population standard deviation, and the standard deviation as the
    normalizer divides by it (missing when it is zero). *)
Definition window (rest_df : DataFrame) (keep : list bool) (c : string) : list value :=
  match to_numpy rest_df c with
  | Ok x => select keep x
  | Raise _ => []
  end.

Definition baseline_mean (rest_df : DataFrame) (keep : list bool) (c : string) : value :=
  mean_skipna (window rest_df keep c).

Definition baseline_sd (sqrt : Q -> Q) (rest_df : DataFrame) (keep : list bool)
    (c : string) : value :=
  std_ddof0 sqrt (window rest_df keep c).

Definition baseline_std (sqrt : Q -> Q) (rest_df : DataFrame) (keep : list bool)
    (c : string) : value :=
  mask_zero (baseline_sd sqrt rest_df keep c).

(** What the normalizer checks or needs of its two tables: every reference
    channel is a column of the target; the timestamp column of the
    reference is numeric and the culling retains a row ([keep]); the
    reference channels are numeric in both tables. *)
Definition normalizable (rest_df exp_df : DataFrame) (ts_col : string)
    (start_buffer end_buffer : Q) (keep : list bool) : Prop :=
  (forall c, In c (channel_cols rest_df) -> mem c (labels exp_df) = true)
  /\ (exists ts, to_numpy rest_df ts_col = Ok ts
                  /\ keep = cull ts start_buffer end_buffer
                  /\ existsb id keep = true)
  /\ (forall c, In c (channel_cols rest_df) -> exists x, to_numpy rest_df c = Ok x)
  /\ (forall c col, In (c, col) exp_df -> In c (channel_cols rest_df) ->
        exists xs, col = NumCol xs).

(** The column the normalizer puts in place of a target column. *)
Definition normalized_column (sqrt : Q -> Q) (rest_df : DataFrame) (keep : list bool)
    (lc : string * column) : string * column :=
  if mem (fst lc) (channel_cols rest_df) then
    match snd lc with
    | NumCol xs =>
        (fst lc,
         NumCol (map (fun raw => div (sub raw (baseline_mean rest_df keep (fst lc)))
                                     (baseline_std sqrt rest_df keep (fst lc))) xs))
    | StrCol _ => lc
    end
  else lc.

(** A rational square root, exact on the squares it is used on. *)
Definition sqrt_floor (q : Q) : Q := Z.sqrt (Qnum q * Zpos (Qden q)) # Qden q.

(** A reference and a target to run the normalizer on: within the culled
    window (the two middle rows) AF7 is constant and AF8 is not. *)
Definition rest_example : DataFrame :=
  [("TimeStamp", StrCol ["a"; "b"; "c"; "d"]);
   ("lsl_unix_ts", NumCol [Fin 0; Fin 1; Fin 2; Fin 3]);
   ("AF7", NumCol [Fin 9; Fin 5; Fin 5; Fin 7]);
   ("AF8", NumCol [Fin 9; Fin 4; Fin 6; Fin 7])].

Definition exp_example : DataFrame :=
  [("TimeStamp", StrCol ["x"; "y"]);
   ("lsl_unix_ts", NumCol [Fin 10; Fin 11]);
   ("AF8", NumCol [Fin 6; NaN]);
   ("AF7", NumCol [Fin 5; Fin 6]);
   ("extra", NumCol [Fin 1; Fin 2])].

(* ================================================================= *)
(** ** analysis/validate.py, runs of repeated rows *)

Module Duplicates.

(** [a != b] on two cells: a missing cell differs from every cell. *)
Definition cell_ne (a b : value) : bool :=
  match a, b with
  | Fin x, Fin y => negb (Qeq_bool x y)
  | _, _ => true
  end.

(** [col.ne(col.shift())]: each cell against the one above it; [shift]
    puts a missing cell above the first. *)
Fixpoint ne_shift {A : Type} (ne : A -> A -> bool) (prev : option A) (l : list A)
    : list bool :=
  match l with
  | [] => []
  | a :: r =>
      match prev with
      | None => true
      | Some p => ne a p
      end :: ne_shift ne (Some a) r
  end.

Definition column_ne (col : column) : list bool :=
  match col with
  | NumCol xs => ne_shift cell_ne None xs
  | StrCol ss => ne_shift (fun a b => negb (String.eqb a b)) None ss
  end.

(** [len(df)] *)
Definition nrows (df : DataFrame) : nat :=
  match df with
  | [] => 0%nat
  | (_, NumCol xs) :: _ => List.length xs
  | (_, StrCol ss) :: _ => List.length ss
  end.

(** [mask.any(axis=1)] over [n] rows. *)
Definition any_axis1 (n : nat) (masks : list (list bool)) : list bool :=
  map (fun i => existsb (fun m => nth i m false) masks) (seq 0 n).

(** [mask.cumsum()], counting [True] as one. *)
Fixpoint cumsum (acc : nat) (mask : list bool) : list nat :=
  match mask with
  | [] => []
  | b :: r =>
      let acc' := if b then S acc else acc in
      acc' :: cumsum acc' r
  end.

(** [groupby(ids)[c].transform('size')]: for every row the size of its
    group. *)
Definition transform_size (ids : list nat) : list nat :=
  map (fun g => count_occ Nat.eq_dec ids g) ids.

(** [s.value_counts().sort_index()]: each value that occurs, in ascending
    order, with the number of rows that hold it. *)
Definition value_counts_sorted (s : list nat) : list (nat * nat) :=
  map (fun v => (v, count_occ Nat.eq_dec s v))
      (filter (fun v => existsb (Nat.eqb v) s) (seq 0 (S (list_max s)))).

(** [get_consecutive_duplicates(df, columns)].  [df[columns]] raises a
    KeyError for a label that is no column (pandas lists the missing labels
    in its message, the model names the first), [columns[0]] an IndexError
    for an empty list. *)
Definition get_consecutive_duplicates (df : DataFrame) (columns : list string)
    : result (list (nat * nat)) :=
  cols <- mapM (get df) columns ;;
  let change_mask := any_axis1 (nrows df) (map column_ne cols) in
  let group_ids := cumsum 0 change_mask in
  match columns with
  | [] => Raise IndexError
  | _ :: _ =>
      let count := transform_size group_ids in
      let dist := value_counts_sorted count in
      Ok dist
  end.

End Duplicates.
Import Duplicates.



(* ================================================================= *)
(** ** processing/normalize.py, the text histogram *)

Module Sparkline.

(** A Python [str] as its code points.  [ticks] is the string of the eight
    block characters U+2581 to U+2588, lowest first. *)
Definition str : Type := list N.

Definition ticks : str := [9601; 9602; 9603; 9604; 9605; 9606; 9607; 9608]%N.

(** [a.max()] and [a.min()]: a missing cell makes them missing, an empty
    array is a ValueError. *)
Definition np_max (xs : list value) : result value :=
  match xs with
  | [] => Raise (ValueError "zero-size array to reduction operation maximum which has no identity")
  | _ => if existsb isnan xs then Ok NaN
         else match dropna xs with
              | [] => Ok NaN
              | q :: r => Ok (Fin (fold_left Qmax r q))
              end
  end.

Definition np_min (xs : list value) : result value :=
  match xs with
  | [] => Raise (ValueError "zero-size array to reduction operation minimum which has no identity")
  | _ => if existsb isnan xs then Ok NaN
         else match dropna xs with
              | [] => Ok NaN
              | q :: r => Ok (Fin (fold_left Qmin r q))
              end
  end.

(** [int(q)] rounds towards zero. *)
Definition int_trunc (q : Q) : Z :=
  if Qle_bool 0 q then Qfloor q else Qceiling q.

(** [s[i]] for a Python integer [i]: negative indices count from the end. *)
Definition index {A : Type} (l : list A) (i : Z) : result A :=
  let n := Z.of_nat (List.length l) in
  let j := if (i <? 0)%Z then (i + n)%Z else i in
  if ((0 <=? j) && (j <? n))%Z then
    match nth_error l (Z.to_nat j) with
    | Some a => Ok a
    | None => Raise IndexError
    end
  else Raise IndexError.

Definition tick (v : value) : result N :=
  match v with
  | NaN => Raise (ValueError "cannot convert float NaN to integer")
  | Fin x => index ticks (int_trunc (x * of_nat (List.length ticks - 1)))
  end.

(** [sparkline(values)] *)
Definition sparkline (values : list value) : result str :=
  mx <- np_max values ;;
  match mx with
  | Fin q => if Qeq_bool q 0 then Ok [] else
      mn <- np_min values ;;
      let scaled := map (fun v => div (sub v mn) (sub mx mn)) values in
      mapM tick scaled
  | NaN =>
      mn <- np_min values ;;
      let scaled := map (fun v => div (sub v mn) (sub mx mn)) values in
      mapM tick scaled
  end.

End Sparkline.
Import Sparkline.

(* ================================================================= *)
(** ** record/record.py, one stream of the recorder

    Every stream type has a producer thread, a consumer thread, a queue
    between them and a ring buffer for the plots; the stop event is shared.
    The model follows one stream.  A thread is a program counter; an event
    is one thread moving to its next blocking call or loop test, or the stop
    event being set (by the signal handler or by [record]'s [finally]).
    [maxlen] stands for [VIS_WINDOW_SEC * STREAM_RATES[stream_type]] and
    [channels] for [STREAM_CHANNELS[stream_type]]. *)

Module Recorder.

(** [row = [unix_ms, lsl_ts] + sample] with [unix_ms = lsl_ts * 1000]. *)
Definition row_of (sample : list Q) (lsl_ts : Q) : list Q :=
  let unix_ms := lsl_ts * 1000 in
  [unix_ms; lsl_ts] ++ sample.

(** [deque(maxlen=maxlen).append(x)]: a full buffer drops its oldest
    entry. *)
Definition deque_append {A : Type} (maxlen : nat) (d : list A) (x : A) : list A :=
  let d' := d ++ [x] in
  skipn (List.length d' - maxlen) d'.

(** Where [producer_thread] is: resolving the stream, at the loop test,
    inside [pull_sample], between [put] and the tap of the sample it holds,
    or returned. *)
Inductive producer_pc : Type :=
| PSearch
| PTest
| PPull
| PTap (sample : list Q)
| PDone.

(** Where [consumer_thread] is: before the file is opened, at the loop
    test, inside [get], or out of the loop. *)
Inductive consumer_pc : Type :=
| COpen
| CTest
| CGet
| CDone.

(** The rows of the CSV file after its header, the header, and [pulled],
    the samples the inlet has delivered so far (a history, not a variable
    of the program). *)
Record state : Type := mkRecorder {
  stop_event : bool;
  queue : list (list Q);
  viz_buffer : list (list Q);
  header : option (list string);
  csv : list (list Q);
  producer : producer_pc;
  consumer : consumer_pc;
  pulled : list (list Q * Q)
}.

Definition start : state :=
  mkRecorder false [] [] None [] PSearch COpen [].

Inductive event : Type :=
| Stop                                  (* stop_event.set() *)
| Resolve (found : bool)                (* resolve_byprop returns *)
| ProducerTest                          (* while not stop_event.is_set() *)
| Pull (got : option (list Q * Q))      (* pull_sample returns; None on timeout *)
| Tap                                   (* viz_buffers[stream_type].append(sample) *)
| OpenFile                              (* open and writer.writerow(header) *)
| ConsumerTest                          (* while not stop or not queue.empty() *)
| Get.                                  (* queue.get returns a row or raises Empty *)

(** The state after an event, [None] when the event cannot happen in the
    state. *)
Definition fire (maxlen : nat) (channels : list string) (e : event) (s : state)
    : option state :=
  match e, producer s, consumer s with
  | Stop, _, _ =>
      Some (mkRecorder true (queue s) (viz_buffer s) (header s) (csv s)
              (producer s) (consumer s) (pulled s))
  | Resolve found, PSearch, _ =>
      Some (mkRecorder (stop_event s) (queue s) (viz_buffer s) (header s) (csv s)
              (if found then PTest else PDone) (consumer s) (pulled s))
  | ProducerTest, PTest, _ =>
      Some (mkRecorder (stop_event s) (queue s) (viz_buffer s) (header s) (csv s)
              (if stop_event s then PDone else PPull) (consumer s) (pulled s))
  | Pull None, PPull, _ =>
      Some (mkRecorder (stop_event s) (queue s) (viz_buffer s) (header s) (csv s)
              PTest (consumer s) (pulled s))
  | Pull (Some (sample, lsl_ts)), PPull, _ =>
      Some (mkRecorder (stop_event s) (queue s ++ [row_of sample lsl_ts]) (viz_buffer s)
              (header s) (csv s) (PTap sample) (consumer s)
              (pulled s ++ [(sample, lsl_ts)]))
  | Tap, PTap sample, _ =>
      Some (mkRecorder (stop_event s) (queue s) (deque_append maxlen (viz_buffer s) sample)
              (header s) (csv s) PTest (consumer s) (pulled s))
  | OpenFile, _, COpen =>
      Some (mkRecorder (stop_event s) (queue s) (viz_buffer s)
              (Some ("unix_ms" :: "lsl_unix_ts" :: channels)) (csv s)
              (producer s) CTest (pulled s))
  | ConsumerTest, _, CTest =>
      Some (mkRecorder (stop_event s) (queue s) (viz_buffer s) (header s) (csv s)
              (producer s)
              (if negb (stop_event s) || negb (match queue s with [] => true | _ => false end)
               then CGet else CDone)
              (pulled s))
  | Get, _, CGet =>
      match queue s with
      | row :: rest =>
          Some (mkRecorder (stop_event s) rest (viz_buffer s) (header s) (csv s ++ [row])
                  (producer s) CTest (pulled s))
      | [] =>
          Some (mkRecorder (stop_event s) [] (viz_buffer s) (header s) (csv s)
                  (producer s) CTest (pulled s))
      end
  | _, _, _ => None
  end.

Fixpoint run (maxlen : nat) (channels : list string) (evs : list event) (s : state)
    : option state :=
  match evs with
  | [] => Some s
  | e :: r =>
      match fire maxlen channels e s with
      | Some s' => run maxlen channels r s'
      | None => None
      end
  end.

End Recorder.
Import Recorder.

(** The last [n] entries of a list, and the samples of a state that have
    gone through the tap: all that were pulled, but for the one the
    producer still holds. *)
Definition lastn {A : Type} (n : nat) (l : list A) : list A :=
  skipn (List.length l - n) l.

Definition tapped (s : state) : list (list Q) :=
  match producer s with
  | PTap _ => map fst (removelast (pulled s))
  | _ => map fst (pulled s)
  end.

(** What every event of the recorder keeps true. *)
Definition recorder_inv (maxlen : nat) (s : state) : Prop :=
  csv s ++ queue s = map (fun p => row_of (fst p) (snd p)) (pulled s)
  /\ viz_buffer s = lastn maxlen (tapped s)
  /\ (forall x, producer s = PTap x -> exists rest ts, pulled s = rest ++ [(x, ts)]).

(** Two outcomes of a channel computation are alike when both are the
    same exception or both are channels of one length. *)
Definition alike (r r' : result (list value)) : Prop :=
  match r, r' with
  | Ok y, Ok y' => List.length y = List.length y'
  | Raise e, Raise e' => e = e'
  | _, _ => False
  end.

(* ================================================================= *)
(** ** The inputs of the two stages *)

Module Signature.




End Signature.
Import Signature.

(* ================================================================= *)
(** ** processing/filter.py on float64

    numpy's [float64] is IEEE 754 binary64, which the primitive floats of
    Rocq compute exactly as the hardware does. *)

Module Binary64.

Definition float : Type := PrimFloat.float.

Definition of_nat (n : nat) : float :=
  PrimFloat.of_uint63 (Uint63.of_Z (Z.of_nat n)).

(** [np.mean(x)] of fewer than eight samples: numpy adds them up one after
    the other and divides by their number.  Longer arrays are added up in
    blocks, which is not modelled ([None]). *)
Definition mean (x : list float) : option float :=
  if (8 <=? List.length x)%nat then None
  else Some (PrimFloat.div (fold_left PrimFloat.add x (of_nat 0))
                           (of_nat (List.length x))).

(** [x - np.mean(x)], line 86 *)
Definition demean (x : list float) : option (list float) :=
  match mean x with
  | Some m => Some (map (fun v => PrimFloat.sub v m) x)
  | None => None
  end.


End Binary64.

(* ================================================================= *)
(** * Properties *)

(** ** Exceptions and loops *)

Lemma raises_Raise {A : Type} (e : error) : raises (@Raise A e).
Proof. exists e; reflexivity. Qed.

Lemma raises_Ok {A : Type} (a : A) : ~ raises (Ok a).
Proof. intros [e He]; discriminate. Qed.

Lemma nth_seq_self {A : Type} (d : A) (l : list A) :
  map (fun j => nth j l d) (seq 0 (List.length l)) = l.
Proof.
  induction l as [|a l IH]; simpl; [reflexivity|].
  f_equal. rewrite <- seq_shift, map_map. exact IH.
Qed.

(** ** Timestamp normalizer *)

Section SampleRate.

Variables (df : DataFrame) (timestamp_col : string) (is_milli : bool).
Variable ts : list value.
Hypothesis Hcol : to_numpy df timestamp_col = Ok ts.

(** The timestamps that remain, their count and the time they span. *)
Let remain : list Q := dropna ts.
Let N : nat := List.length remain.
Let duration : Q :=
  if is_milli then (last remain 0 - hd 0 remain) / 1000
  else last remain 0 - hd 0 remain.

Lemma estimate_too_few :
  (N < 2)%nat ->
  estimate_sample_rate_duration df timestamp_col is_milli
  = Raise (ValueError "Not enough timestamps to estimate sample rate.").
Proof.
  intros HN. unfold estimate_sample_rate_duration. rewrite Hcol. simpl.
  fold remain. fold N.
  destruct (Nat.ltb_spec N 2); [reflexivity | lia].
Qed.

Lemma estimate_flat :
  (2 <= N)%nat -> duration <= 0 ->
  estimate_sample_rate_duration df timestamp_col is_milli
  = Raise (ValueError "Non-positive duration detected.").
Proof.
  intros HN Hd. unfold estimate_sample_rate_duration. rewrite Hcol. simpl.
  fold remain. fold N.
  destruct (Nat.ltb_spec N 2); [lia|].
  fold duration.
  apply Qle_bool_iff in Hd. rewrite Hd. reflexivity.
Qed.

Lemma estimate_rate :
  (2 <= N)%nat -> 0 < duration ->
  estimate_sample_rate_duration df timestamp_col is_milli
  = Ok ((of_nat N - 1) / duration).
Proof.
  intros HN Hd. unfold estimate_sample_rate_duration. rewrite Hcol. simpl.
  fold remain. fold N.
  destruct (Nat.ltb_spec N 2); [lia|].
  fold duration.
  destruct (Qle_bool duration 0) eqn:E; [|reflexivity].
  apply Qle_bool_iff in E. exfalso. apply (Qlt_not_le _ _ Hd E).
Qed.

End SampleRate.

(** ** De-duplication *)

Lemma insert_key_In (k x : string) (ks : list string) :
  In k (insert_key x ks) <-> k = x \/ In k ks.
Proof.
  induction ks as [|h t IH]; simpl.
  - intuition.
  - destruct (String_as_OT.compare_spec x h) as [E|L|G]; simpl.
    + change (x = h) in E. subst h. intuition.
    + intuition.
    + rewrite IH. intuition.
Qed.

Lemma group_keys_In (k : string) (rows : list row) :
  In k (group_keys rows) <-> In k (map TimeStamp rows).
Proof.
  unfold group_keys.
  induction rows as [|r rows IH]; simpl; [reflexivity|].
  rewrite insert_key_In, IH. intuition.
Qed.

Lemma insert_key_sorted (x : string) (ks : list string) :
  StronglySorted String_as_OT.lt ks ->
  StronglySorted String_as_OT.lt (insert_key x ks).
Proof.
  induction 1 as [|h t Hs IH Hh]; simpl.
  - repeat constructor.
  - destruct (String_as_OT.compare_spec x h) as [E|L|G].
    + constructor; assumption.
    + constructor; [constructor; assumption|].
      constructor; [exact L|].
      eapply Forall_impl; [|exact Hh].
      intros a Ha. eapply String_as_OT.lt_strorder; eassumption.
    + constructor; [exact IH|].
      apply Forall_forall. intros a Ha.
      apply insert_key_In in Ha. destruct Ha as [->|Ha]; [exact G|].
      rewrite Forall_forall in Hh. auto.
Qed.

Lemma group_keys_sorted (rows : list row) :
  StronglySorted String_as_OT.lt (group_keys rows).
Proof.
  unfold group_keys.
  induction rows as [|r rows IH]; simpl; [constructor|].
  apply insert_key_sorted, IH.
Qed.

Lemma sorted_keys_NoDup (ks : list string) :
  StronglySorted String_as_OT.lt ks -> NoDup ks.
Proof.
  induction 1 as [|h t Hs IH Hh]; constructor; [|exact IH].
  intros Hin. rewrite Forall_forall in Hh. specialize (Hh _ Hin).
  revert Hh. apply String_as_OT.lt_strorder.
Qed.

Lemma group_In (k : string) (rows : list row) (r : row) :
  In r (group k rows) <-> In r rows /\ TimeStamp r = k.
Proof.
  unfold group. rewrite filter_In, String.eqb_eq. reflexivity.
Qed.

Lemma group_nonempty (k : string) (rows : list row) :
  In k (map TimeStamp rows) -> group k rows <> [].
Proof.
  intros Hin E. apply in_map_iff in Hin. destruct Hin as [r [Hk Hr]].
  assert (H : In r (group k rows)) by (apply group_In; auto).
  rewrite E in H. exact H.
Qed.

Lemma last_cons {A : Type} (x d : A) (l : list A) : last (x :: l) d = last l x.
Proof.
  revert x d. induction l as [|y l IH]; intros x d; [reflexivity|].
  change (last (x :: y :: l) d) with (last (y :: l) d).
  rewrite (IH y d), (IH y x). reflexivity.
Qed.

Lemma last_In {A : Type} (d : A) (l : list A) : l <> [] -> In (last l d) l.
Proof.
  induction l as [|x l IH]; [congruence|]. intros _.
  destruct l as [|y l]; [left; reflexivity|].
  right. apply IH. discriminate.
Qed.

Lemma last_map {A B : Type} (f : A -> B) (d : A) (l : list A) :
  last (map f l) (f d) = f (last l d).
Proof.
  induction l as [|x l IH]; [reflexivity|].
  destruct l as [|y l]; [reflexivity|]. exact IH.
Qed.

Lemma last_default {A : Type} (d d' : A) (l : list A) :
  l <> [] -> last l d = last l d'.
Proof.
  induction l as [|x l IH]; [congruence|]. intros _.
  destruct l as [|y l]; [reflexivity|]. apply IH. discriminate.
Qed.

Lemma last_valid_present (xs : list value) :
  Forall (fun v => isnan v = false) xs -> xs <> [] ->
  last_valid xs = last xs NaN.
Proof.
  unfold last_valid. generalize NaN as acc.
  induction xs as [|x xs IH]; intros acc Hall Hne; [congruence|].
  inversion Hall as [|? ? Hx Hxs]; subst. simpl fold_left. rewrite Hx.
  destruct xs as [|y xs]; [reflexivity|].
  rewrite (IH x Hxs); [|discriminate].
  symmetry. apply last_cons.
Qed.

Lemma first_valid_present (x : value) (xs : list value) :
  isnan x = false -> first_valid (x :: xs) = x.
Proof. intros Hx. unfold first_valid. simpl. rewrite Hx. reflexivity. Qed.

Lemma complete_cell (r : row) (j : nat) :
  complete r -> (j < List.length (cells r))%nat -> isnan (cell j r) = false.
Proof.
  intros Hc Hj. unfold complete in Hc. rewrite Forall_forall in Hc.
  apply Hc. unfold cell. apply nth_In. exact Hj.
Qed.

Lemma aggregate_last_complete (k : string) (rows : list row) :
  rectangular rows -> Forall complete rows -> In k (map TimeStamp rows) ->
  aggregate last_valid k rows = last (group k rows) (mkRow k []).
Proof.
  intros Hrect Hcomp Hk. unfold aggregate.
  pose proof (group_nonempty k rows Hk) as Hne.
  pose proof (last_In (mkRow k []) _ Hne) as Hlast.
  apply group_In in Hlast. destruct Hlast as [Hin Hkey].
  unfold rectangular in Hrect. rewrite Forall_forall in Hrect, Hcomp.
  set (l := last (group k rows) (mkRow k [])) in *.
  rewrite <- (Hrect l Hin).
  rewrite (map_ext_in _ (fun j => nth j (cells l) NaN)).
  - rewrite nth_seq_self. destruct l as [kl cl]. simpl in Hkey. subst kl. reflexivity.
  - intros j Hj. apply in_seq in Hj.
    rewrite last_valid_present.
    + rewrite (last_default NaN (cell j (mkRow k []))).
      * rewrite last_map. reflexivity.
      * intros E. apply map_eq_nil in E. auto.
    + apply Forall_forall. intros v Hv. apply in_map_iff in Hv.
      destruct Hv as [r [<- Hr]]. apply group_In in Hr. destruct Hr as [Hr _].
      apply complete_cell; [auto|]. rewrite (Hrect r Hr), <- (Hrect l Hin). lia.
    + intros E. apply map_eq_nil in E. auto.
Qed.

Lemma aggregate_first_complete (k : string) (rows : list row) :
  rectangular rows -> Forall complete rows -> In k (map TimeStamp rows) ->
  aggregate first_valid k rows = hd (mkRow k []) (group k rows).
Proof.
  intros Hrect Hcomp Hk. unfold aggregate.
  pose proof (group_nonempty k rows Hk) as Hne.
  destruct (group k rows) as [|r0 g] eqn:Eg; [congruence|]. simpl hd.
  assert (Hr0 : In r0 rows /\ TimeStamp r0 = k).
  { apply group_In. rewrite Eg. left; reflexivity. }
  destruct Hr0 as [Hin Hkey].
  unfold rectangular in Hrect. rewrite Forall_forall in Hrect, Hcomp.
  rewrite <- (Hrect r0 Hin).
  rewrite (map_ext_in _ (fun j => nth j (cells r0) NaN)).
  - rewrite nth_seq_self. destruct r0 as [k0 c0]. simpl in Hkey. subst k0. reflexivity.
  - intros j Hj. apply in_seq in Hj. simpl map.
    apply first_valid_present. apply complete_cell; [auto | lia].
Qed.

Lemma cell_aggregate (agg : list value -> value) (k : string) (rows : list row) (j : nat) :
  (j < width rows)%nat ->
  cell j (aggregate agg k rows) = agg (map (cell j) (group k rows)).
Proof.
  intros Hj. unfold aggregate, cell at 1. simpl cells.
  rewrite (nth_indep _ NaN (agg (map (cell 0) (group k rows)))).
  - rewrite (map_nth (fun j => agg (map (cell j) (group k rows))) (seq 0 (width rows)) 0%nat j).
    rewrite seq_nth; [reflexivity | exact Hj].
  - rewrite length_map, length_seq. exact Hj.
Qed.

Lemma dedup_keys (choice : string) (rows : list row) :
  map TimeStamp (dedup choice rows) = group_keys rows.
Proof.
  unfold dedup, groupby_last, groupby_first.
  destruct (String.eqb choice "last"); rewrite map_map; simpl; apply map_id.
Qed.

(** C3 (as amended).  De-duplication returns exactly one row per distinct
    value of the grouping key.  Under ['last'] every column of that row
    holds the last non-missing value the column takes among the rows of the
    key, under ['first'] the first non-missing one.  When the rows have no
    missing cell, the row kept is the last, respectively the first,
    occurrence of the key.  With ['last'], which is the default, the rows
    [(100,1), (100,2), (200,3)] give [(100,2), (200,3)]; with ['first'] they
    give [(100,1), (200,3)]. *)
Theorem C3_dedup_last_or_first :
  forall rows : list row,
    (forall choice,
        NoDup (map TimeStamp (dedup choice rows))
        /\ forall k, In k (map TimeStamp (dedup choice rows)) <-> In k (map TimeStamp rows))
    /\ (forall g j, In g (dedup "last" rows) -> (j < width rows)%nat ->
          cell j g = last_valid (map (cell j) (group (TimeStamp g) rows)))
    /\ (forall g j, In g (dedup "first" rows) -> (j < width rows)%nat ->
          cell j g = first_valid (map (cell j) (group (TimeStamp g) rows)))
    /\ (rectangular rows -> Forall complete rows ->
          dedup "last" rows = spec_keep_last rows
          /\ dedup "first" rows = spec_keep_first rows)
    /\ dedup groupby_choice_default
         [mkRow "100" [Fin 1]; mkRow "100" [Fin 2]; mkRow "200" [Fin 3]]
       = [mkRow "100" [Fin 2]; mkRow "200" [Fin 3]]
    /\ dedup "first"
         [mkRow "100" [Fin 1]; mkRow "100" [Fin 2]; mkRow "200" [Fin 3]]
       = [mkRow "100" [Fin 1]; mkRow "200" [Fin 3]].
Proof.
  intros rows. repeat split.
  - rewrite dedup_keys. apply sorted_keys_NoDup, group_keys_sorted.
  - rewrite dedup_keys. apply group_keys_In.
  - rewrite dedup_keys. apply group_keys_In.
  - intros g j Hg Hj. change (dedup "last" rows) with (groupby_last rows) in Hg.
    apply in_map_iff in Hg. destruct Hg as [k [<- _]].
    apply cell_aggregate, Hj.
  - intros g j Hg Hj. change (dedup "first" rows) with (groupby_first rows) in Hg.
    apply in_map_iff in Hg. destruct Hg as [k [<- _]].
    apply cell_aggregate, Hj.
  - change (dedup "last" rows) with (groupby_last rows).
    unfold groupby_last, spec_keep_last. apply map_ext_in. intros k Hk.
    apply aggregate_last_complete; try assumption. apply group_keys_In, Hk.
  - change (dedup "first" rows) with (groupby_first rows).
    unfold groupby_first, spec_keep_first. apply map_ext_in. intros k Hk.
    apply aggregate_first_complete; try assumption. apply group_keys_In, Hk.
Qed.

Lemma C3_dedup_last_or_first_witness :
  let rows := [mkRow "100" [Fin 1]; mkRow "100" [Fin 2]; mkRow "200" [Fin 3]] in
  rectangular rows /\ Forall complete rows
  /\ dedup "last" rows = spec_keep_last rows
  /\ dedup "first" rows = spec_keep_first rows.
Proof.
  intros rows.
  assert (Hr : rectangular rows) by (repeat constructor).
  assert (Hc : Forall complete rows) by (repeat constructor).
  split; [exact Hr|]. split; [exact Hc|].
  exact (proj1 (proj2 (proj2 (proj2 (C3_dedup_last_or_first rows)))) Hr Hc).
Defined.

(** C3 as stated fails: two rows share the key ["100"], the later one lacks
    its first cell, and ['last'] returns a row that is neither of them (the
    earlier row's first cell beside the later row's second), not the last
    occurrence. *)
Lemma C3_counterexample :
  let rows := [mkRow "100" [Fin 1; Fin 5]; mkRow "100" [NaN; Fin 6]] in
  dedup "last" rows = [mkRow "100" [Fin 1; Fin 6]]
  /\ spec_keep_last rows = [mkRow "100" [NaN; Fin 6]]
  /\ dedup "last" rows <> spec_keep_last rows.
Proof.
  intros rows. split; [reflexivity|]. split; [reflexivity|].
  vm_compute. discriminate.
Qed.

(** C9.  Every tie-break setting other than the string ['last'] makes the
    conversion de-duplicate its three streams exactly as ['first'] does;
    the setting is never validated (the conversion has no failing
    outcome on its account). *)
Theorem C9_unrecognized_choice_is_first :
  forall (groupby_choice : string) (eeg_raw accel_raw gyro_raw : list row),
    groupby_choice <> "last" ->
    mm_to_bluemuse groupby_choice eeg_raw accel_raw gyro_raw
    = mm_to_bluemuse "first" eeg_raw accel_raw gyro_raw.
Proof.
  intros c eeg accel gyro Hc. unfold mm_to_bluemuse, dedup.
  destruct (String.eqb_spec c "last") as [E|_]; [contradiction|].
  reflexivity.
Qed.

Lemma C9_unrecognized_choice_is_first_witness :
  let rows := [mkRow "100" [Fin 1]; mkRow "100" [Fin 2]; mkRow "200" [Fin 3]] in
  "lsat" <> "last"
  /\ mm_to_bluemuse "lsat" rows rows rows = mm_to_bluemuse "first" rows rows rows.
Proof.
  intros rows.
  assert (H : "lsat" <> "last") by discriminate.
  split; [exact H|].
  exact (C9_unrecognized_choice_is_first "lsat" rows rows rows H).
Defined.

(** C5.  With at least two timestamps left and a positive span, the
    estimate is (N - 1) / (span in seconds); an error is raised exactly when
    fewer than two timestamps remain or the span is not positive; the
    millisecond timestamps 0, 10, 20, 30 give 100 Hz. *)
Theorem C5_sample_rate_estimate :
  forall (df : DataFrame) (timestamp_col : string) (is_milli : bool) (ts : list value),
    to_numpy df timestamp_col = Ok ts ->
    let remain := dropna ts in
    let N := List.length remain in
    let duration :=
      if is_milli then (last remain 0 - hd 0 remain) / 1000
      else last remain 0 - hd 0 remain in
    ((2 <= N)%nat -> 0 < duration ->
       estimate_sample_rate_duration df timestamp_col is_milli
       = Ok ((of_nat N - 1) / duration))
    /\ (raises (estimate_sample_rate_duration df timestamp_col is_milli)
        <-> (N < 2)%nat \/ duration <= 0)
    /\ exists hz,
        estimate_sample_rate_duration
          [("unix_ms", NumCol [Fin 0; Fin 10; Fin 20; Fin 30])] "unix_ms" true = Ok hz
        /\ hz == 100.
Proof.
  intros df col ms ts Hcol remain N duration. split; [|split].
  - intros HN Hd. exact (estimate_rate df col ms ts Hcol HN Hd).
  - split.
    + intros Hr. destruct (Nat.lt_ge_cases N 2) as [HN|HN]; [left; exact HN|].
      right. destruct (Qlt_le_dec 0 duration) as [Hd|Hd]; [|exact Hd].
      exfalso. rewrite (estimate_rate df col ms ts Hcol HN Hd) in Hr.
      exact (raises_Ok _ Hr).
    + intros [HN|Hd].
      * rewrite (estimate_too_few df col ms ts Hcol HN). apply raises_Raise.
      * destruct (Nat.lt_ge_cases N 2) as [HN|HN].
        -- rewrite (estimate_too_few df col ms ts Hcol HN). apply raises_Raise.
        -- rewrite (estimate_flat df col ms ts Hcol HN Hd). apply raises_Raise.
  - eexists. split; [reflexivity|]. reflexivity.
Qed.

Lemma C5_sample_rate_estimate_witness :
  let df := [("unix_ms", NumCol [Fin 0; NaN; Fin 10; Fin 20; Fin 30])] in
  to_numpy df "unix_ms" = Ok [Fin 0; NaN; Fin 10; Fin 20; Fin 30]
  /\ (2 <= 4)%nat /\ 0 < (30 - 0) / 1000
  /\ estimate_sample_rate_duration df "unix_ms" true = Ok ((of_nat 4 - 1) / ((30 - 0) / 1000)).
Proof.
  intros df.
  assert (H1 : to_numpy df "unix_ms" = Ok [Fin 0; NaN; Fin 10; Fin 20; Fin 30]) by reflexivity.
  assert (H2 : (2 <= 4)%nat) by lia.
  assert (H3 : 0 < (30 - 0) / 1000) by reflexivity.
  split; [exact H1|]. split; [exact H2|]. split; [exact H3|].
  exact (proj1 (C5_sample_rate_estimate df "unix_ms" true _ H1) H2 H3).
Defined.

(** ** Arithmetic on sample indices *)

Lemma of_nat_lt (a b : nat) : (a < b)%nat -> of_nat a < of_nat b.
Proof. intros H. unfold of_nat. rewrite <- Zlt_Qlt. lia. Qed.

Lemma of_nat_le (a b : nat) : (a <= b)%nat -> of_nat a <= of_nat b.
Proof. intros H. unfold of_nat. rewrite <- Zle_Qle. lia. Qed.

Lemma of_nat_add (a b : nat) : of_nat (a + b) == of_nat a + of_nat b.
Proof. unfold of_nat. rewrite Nat2Z.inj_add, inject_Z_plus. reflexivity. Qed.

Lemma of_nat_S (a : nat) : of_nat (S a) == of_nat a + 1.
Proof. rewrite <- Nat.add_1_r, of_nat_add. reflexivity. Qed.

Lemma Qle_bool_false (x y : Q) : y < x -> Qle_bool x y = false.
Proof.
  intros H. destruct (Qle_bool x y) eqn:E; [|reflexivity].
  apply Qle_bool_iff in E. exfalso. exact (Qlt_not_le _ _ H E).
Qed.

Lemma Qle_bool_true (x y : Q) : x <= y -> Qle_bool x y = true.
Proof. apply Qle_bool_iff. Qed.

Lemma Qeq_bool_false (x y : Q) : ~ x == y -> Qeq_bool x y = false.
Proof.
  intros H. destruct (Qeq_bool x y) eqn:E; [|reflexivity].
  apply Qeq_bool_iff in E. contradiction.
Qed.

(** ** NaN interpolation *)

Lemma dropna_app (l1 l2 : list value) : dropna (l1 ++ l2) = dropna l1 ++ dropna l2.
Proof.
  induction l1 as [|[|q] l1 IH]; simpl; [reflexivity | exact IH | f_equal; exact IH].
Qed.

Lemma where_valid_app (i : nat) (l1 l2 : list value) :
  where_valid i (l1 ++ l2) = where_valid i l1 ++ where_valid (i + List.length l1) l2.
Proof.
  revert i. induction l1 as [|[|q] l1 IH]; intros i; simpl.
  - rewrite Nat.add_0_r. reflexivity.
  - rewrite IH. do 2 f_equal. lia.
  - rewrite IH. do 3 f_equal. lia.
Qed.

Lemma dropna_repeat_nan (k : nat) : dropna (repeat NaN k) = [].
Proof. induction k; simpl; auto. Qed.

Lemma where_valid_repeat_nan (i k : nat) : where_valid i (repeat NaN k) = [].
Proof. revert i. induction k; intros i; simpl; auto. Qed.

Lemma where_valid_length (i : nat) (l : list value) :
  List.length (where_valid i l) = List.length (dropna l).
Proof.
  revert i. induction l as [|[|q] l IH]; intros i; simpl; auto.
Qed.

(** The positions of the valid samples lie within the array. *)
Lemma where_valid_bounds (i : nat) (l : list value) :
  Forall (fun q => of_nat i <= q /\ q < of_nat (i + List.length l)) (where_valid i l).
Proof.
  revert i. induction l as [|[|q] l IH]; intros i; simpl.
  - constructor.
  - eapply Forall_impl; [|apply (IH (S i))]. simpl. intros a [H1 H2]. split.
    + eapply Qle_trans; [apply of_nat_le|exact H1]. lia.
    + replace (i + S (List.length l))%nat with (S (i + List.length l)) by lia. exact H2.
  - constructor.
    + split; [apply Qle_refl | apply of_nat_lt; lia].
    + eapply Forall_impl; [|apply (IH (S i))]. simpl. intros a [H1 H2]. split.
      * eapply Qle_trans; [apply of_nat_le|exact H1]. lia.
      * replace (i + S (List.length l))%nat with (S (i + List.length l)) by lia. exact H2.
Qed.

Lemma last_app_cons {A : Type} (l1 : list A) (x : A) (l2 : list A) (d : A) :
  last (l1 ++ x :: l2) d = last l2 x.
Proof.
  induction l1 as [|y l1 IH]; simpl app.
  - apply last_cons.
  - rewrite last_cons, <- IH. apply last_default.
    destruct l1; discriminate.
Qed.

Lemma last_lower_bound (x : Q) (l : list Q) :
  Forall (fun y => x <= y) l -> x <= last l x.
Proof.
  intros H. destruct l as [|y l]; [apply Qle_refl|].
  rewrite Forall_forall in H. apply H. apply last_In. discriminate.
Qed.

(** Walking past sample points that are not right of the query. *)
Lemma interp_from_skip (x : Q) (A FA : list Q) :
  forall (xj fj : Q) (R FR : list Q),
    List.length A = List.length FA ->
    Forall (fun a => a <= x) A ->
    interp_from x xj fj (A ++ R) (FA ++ FR)
    = interp_from x (last A xj) (last FA fj) R FR.
Proof.
  revert FA. induction A as [|a A IH]; intros [|fa FA] xj fj R FR Hlen Hall;
    try discriminate; [reflexivity|].
  inversion Hall as [|? ? Ha HA]; subst.
  rewrite (last_cons a xj A), (last_cons fa fj FA).
  simpl app. simpl interp_from.
  rewrite (Qle_bool_true _ _ Ha).
  apply IH; [simpl in Hlen; lia|exact HA].
Qed.

(** A query strictly between two neighbouring sample points. *)
Lemma interp1_between (x : Q) (P FP : list Q) (xa fa xb fb : Q) (B FB : list Q) :
  List.length P = List.length FP ->
  Forall (fun a => a <= x) P ->
  xa < x -> x < xb ->
  Forall (fun y => xb <= y) B ->
  interp1 x (P ++ xa :: xb :: B) (FP ++ fa :: fb :: FB)
  = Ok (((fb - fa) / (xb - xa)) * (x - xa) + fa).
Proof.
  intros Hlen HP Ha Hb HB.
  assert (Hlast : forall d, Qle_bool x (last (P ++ xa :: xb :: B) d) = true).
  { intros d. rewrite last_app_cons, last_cons. apply Qle_bool_true.
    eapply Qle_trans; [apply Qlt_le_weak, Hb | apply last_lower_bound, HB]. }
  assert (Hstep : interp_from x xa fa (xb :: B) (fb :: FB)
                  = ((fb - fa) / (xb - xa)) * (x - xa) + fa).
  { simpl. rewrite (Qle_bool_false _ _ Hb).
    rewrite Qeq_bool_false; [reflexivity|].
    intros E. rewrite E in Ha. exact (Qlt_irrefl _ Ha). }
  destruct P as [|p P]; destruct FP as [|fp FP]; try discriminate.
  - simpl app. unfold interp1.
    change (xa :: xb :: B) with ([] ++ xa :: xb :: B) at 1. rewrite Hlast.
    rewrite (Qle_bool_true xa x (Qlt_le_weak _ _ Ha)). simpl. f_equal. exact Hstep.
  - inversion HP as [|? ? Hp HP']; subst.
    simpl app. unfold interp1.
    change (p :: P ++ xa :: xb :: B) with ((p :: P) ++ xa :: xb :: B) at 1.
    rewrite Hlast. rewrite (Qle_bool_true _ _ Hp). simpl negb. cbv iota.
    f_equal.
    change (P ++ xa :: xb :: B) with (P ++ [xa] ++ xb :: B).
    change (FP ++ fa :: fb :: FB) with (FP ++ [fa] ++ fb :: FB).
    rewrite !app_assoc.
    rewrite interp_from_skip.
    + rewrite !last_last. exact Hstep.
    + rewrite !length_app. simpl in *. lia.
    + apply Forall_app. split; [exact HP'|]. constructor; [apply Qlt_le_weak, Ha|constructor].
Qed.

(** A query left of every sample point takes the first sample value. *)
Lemma interp1_left (x x0 f0 : Q) (xp fp : list Q) :
  x < x0 -> Forall (fun y => x0 <= y) xp ->
  interp1 x (x0 :: xp) (f0 :: fp) = Ok f0.
Proof.
  intros Hx Hxp. unfold interp1.
  rewrite Qle_bool_true.
  - rewrite (Qle_bool_false _ _ Hx). reflexivity.
  - rewrite last_cons. eapply Qle_trans; [apply Qlt_le_weak, Hx|].
    apply last_lower_bound, Hxp.
Qed.

(** A query right of every sample point takes the last sample value. *)
Lemma interp1_right (x x0 f0 : Q) (xp fp : list Q) :
  last (x0 :: xp) x0 < x ->
  interp1 x (x0 :: xp) (f0 :: fp) = Ok (last (f0 :: fp) f0).
Proof.
  intros Hx. unfold interp1. rewrite (Qle_bool_false _ _ Hx). reflexivity.
Qed.

Lemma interp1_past (x : Q) (P FP : list Q) (xl fl : Q) :
  List.length P = List.length FP -> xl < x ->
  interp1 x (P ++ [xl]) (FP ++ [fl]) = Ok fl.
Proof.
  intros Hlen Hx.
  destruct P as [|p P]; destruct FP as [|fp FP]; try discriminate.
  - simpl app. rewrite interp1_right; [reflexivity | exact Hx].
  - simpl app. rewrite interp1_right.
    + f_equal. rewrite last_cons. apply last_last.
    + rewrite last_cons, last_last. exact Hx.
Qed.

(** What [interp] and the masked assignment do, cell by cell: a valid
    sample stays, a missing one takes [np.interp] at its index. *)
Lemma assign_interp (xp fp : list Q) (x : list value) :
  xp <> [] -> fp <> [] ->
  forall s : nat,
  exists vals,
    interp (where_nan s x) xp fp = Ok vals
    /\ List.length (assign_nans x vals) = List.length x
    /\ forall i, (i < List.length x)%nat ->
         match nth i x NaN with
         | Fin q => nth i (assign_nans x vals) NaN = Fin q
         | NaN => exists v, interp1 (of_nat (s + i)) xp fp = Ok v
                            /\ nth i (assign_nans x vals) NaN = Fin v
         end.
Proof.
  intros Hxp Hfp.
  induction x as [|[|q] x IH]; intros s.
  - exists []. simpl. destruct xp; [congruence|].
    repeat split; intros; lia.
  - destruct (IH (S s)) as [vals [Hv [Hlen Hnth]]].
    assert (Hone : exists v, interp1 (of_nat s) xp fp = Ok v).
    { destruct xp as [|x0 xp]; [congruence|]. destruct fp as [|f0 fp]; [congruence|].
      unfold interp1.
      destruct (negb (Qle_bool (of_nat s) (last (x0 :: xp) x0))); [eexists; reflexivity|].
      destruct (negb (Qle_bool x0 (of_nat s))); eexists; reflexivity. }
    destruct Hone as [v Hone]. exists (v :: vals). simpl where_nan. simpl interp.
    rewrite Hone, Hv. simpl. repeat split; [f_equal; exact Hlen|].
    intros [|i] Hi.
    + simpl. exists v. rewrite Nat.add_0_r. auto.
    + simpl. specialize (Hnth i ltac:(simpl in Hi; lia)).
      replace (s + S i)%nat with (S s + i)%nat by lia. exact Hnth.
  - destruct (IH (S s)) as [vals [Hv [Hlen Hnth]]].
    exists vals. simpl where_nan. split; [exact Hv|]. simpl. split; [f_equal; exact Hlen|].
    intros [|i] Hi; [reflexivity|].
    specialize (Hnth i ltac:(simpl in Hi; lia)).
    replace (s + S i)%nat with (S s + i)%nat by lia. exact Hnth.
Qed.

Lemma no_nan_nth (x : list value) (i : nat) :
  existsb isnan x = false -> (i < List.length x)%nat ->
  exists q, nth i x NaN = Fin q.
Proof.
  revert i. induction x as [|[|q] x IH]; intros i Hn Hi; simpl in *; try lia; try discriminate.
  destruct i; [eexists; reflexivity|]. apply IH; [exact Hn|lia].
Qed.

Lemma has_valid_points (x : list value) :
  existsb (fun v => negb (isnan v)) x = true ->
  where_valid 0 x <> [] /\ dropna x <> [].
Proof.
  intros H.
  assert (Hd : dropna x <> []).
  { induction x as [|[|q] x IH]; simpl in *; [discriminate|auto|discriminate]. }
  split; [|exact Hd].
  intros E. apply Hd. apply length_zero_iff_nil.
  rewrite <- (where_valid_length 0), E. reflexivity.
Qed.

(** [interpolate_nans] on a channel with a valid sample: it returns, keeps
    the length and the valid samples, and puts [np.interp] at every
    missing index. *)
Lemma interpolate_nans_cells (x : list value) :
  existsb (fun v => negb (isnan v)) x = true ->
  exists y,
    interpolate_nans x = Ok y
    /\ List.length y = List.length x
    /\ forall i, (i < List.length x)%nat ->
         match nth i x NaN with
         | Fin q => nth i y NaN = Fin q
         | NaN => exists v,
             interp1 (of_nat i) (where_valid 0 x) (dropna x) = Ok v
             /\ nth i y NaN = Fin v
         end.
Proof.
  intros Hv. unfold interpolate_nans.
  destruct (existsb isnan x) eqn:En; simpl.
  - destruct (has_valid_points x Hv) as [Hxp Hfp].
    destruct (assign_interp _ _ x Hxp Hfp 0) as [vals [Hi [Hlen Hnth]]].
    rewrite Hi. simpl. exists (assign_nans x vals). auto.
  - exists x. repeat split. intros i Hi.
    destruct (no_nan_nth x i En Hi) as [q Hq]. rewrite Hq. reflexivity.
Qed.

Lemma nth_nan_block (pre : list value) (v : value) (k j : nat) (post : list value) :
  (j < k)%nat ->
  nth (List.length pre + 1 + j) (pre ++ v :: repeat NaN k ++ post) NaN = NaN.
Proof.
  intros Hj. rewrite app_nth2 by lia.
  replace (List.length pre + 1 + j - List.length pre)%nat with (S j) by lia.
  simpl. rewrite app_nth1 by (rewrite repeat_length; exact Hj).
  apply nth_repeat.
Qed.

Lemma lower_bounds_from (i : nat) (l : list value) (b : Q) :
  b <= of_nat i -> Forall (fun y => b <= y) (where_valid i l).
Proof.
  intros Hb. eapply Forall_impl; [|apply where_valid_bounds].
  simpl. intros a [H _]. eapply Qle_trans; eassumption.
Qed.

Lemma upper_bounds_to (l : list value) (b : Q) :
  of_nat (List.length l) <= b -> Forall (fun y => y <= b) (where_valid 0 l).
Proof.
  intros Hb. eapply Forall_impl; [|apply where_valid_bounds].
  simpl. intros a [_ H]. apply Qlt_le_weak. eapply Qlt_le_trans; eassumption.
Qed.

(** C10.  On a channel with at least one valid sample, [interpolate_nans]
    returns a channel of the same length in which the missing samples
    before the first valid one take the value of the first valid sample,
    those after the last valid one take the value of the last valid sample,
    and a run of [k] missing samples between the valid neighbours [a] and
    [b] is filled linearly by sample index: its sample number [j] (from 0)
    becomes [a + (b - a) * (j + 1) / (k + 1)]. *)
Theorem C10_interpolate_nans_edges :
  forall x : list value,
    existsb (fun v => negb (isnan v)) x = true ->
    exists y,
      interpolate_nans x = Ok y
      /\ List.length y = List.length x
      /\ (forall k a rest j,
             x = repeat NaN k ++ Fin a :: rest -> (j < k)%nat ->
             nth j y NaN = Fin a)
      /\ (forall pre a k j,
             x = pre ++ Fin a :: repeat NaN k -> (j < k)%nat ->
             nth (List.length pre + 1 + j) y NaN = Fin a)
      /\ (forall pre a k b post j,
             x = pre ++ Fin a :: repeat NaN k ++ Fin b :: post -> (j < k)%nat ->
             exists v,
               nth (List.length pre + 1 + j) y NaN = Fin v
               /\ v == a + (b - a) * of_nat (j + 1) / of_nat (k + 1)).
Proof.
  intros x Hv.
  destruct (interpolate_nans_cells x Hv) as [y [Hy [Hlen Hcell]]].
  exists y. split; [exact Hy|]. split; [exact Hlen|]. split; [|split].
  - intros k a rest j Hx Hj.
    assert (Hi : (j < List.length x)%nat).
    { rewrite Hx, length_app, repeat_length. lia. }
    specialize (Hcell j Hi).
    assert (Hn : nth j x NaN = NaN).
    { rewrite Hx, app_nth1 by (rewrite repeat_length; exact Hj). apply nth_repeat. }
    rewrite Hn in Hcell. destruct Hcell as [v [Hi1 Hv1]]. rewrite Hv1. f_equal.
    rewrite Hx in Hi1.
    rewrite where_valid_app, where_valid_repeat_nan, dropna_app, dropna_repeat_nan in Hi1.
    rewrite repeat_length in Hi1. cbn [where_valid dropna app Nat.add] in Hi1.
    rewrite interp1_left in Hi1.
    + congruence.
    + apply of_nat_lt, Hj.
    + apply lower_bounds_from, of_nat_le. lia.
  - intros pre a k j Hx Hj.
    assert (Hi : (List.length pre + 1 + j < List.length x)%nat).
    { rewrite Hx, length_app. simpl. rewrite repeat_length. lia. }
    specialize (Hcell _ Hi).
    assert (Hn : nth (List.length pre + 1 + j) x NaN = NaN).
    { rewrite Hx. rewrite <- (app_nil_r (repeat NaN k)). apply nth_nan_block, Hj. }
    rewrite Hn in Hcell. destruct Hcell as [v [Hi1 Hv1]]. rewrite Hv1. f_equal.
    rewrite Hx in Hi1.
    rewrite where_valid_app, dropna_app in Hi1. cbn [where_valid dropna app Nat.add] in Hi1.
    rewrite where_valid_repeat_nan, dropna_repeat_nan in Hi1.
    rewrite interp1_past in Hi1.
    + congruence.
    + apply where_valid_length.
    + apply of_nat_lt. lia.
  - intros pre a k b post j Hx Hj.
    assert (Hi : (List.length pre + 1 + j < List.length x)%nat).
    { rewrite Hx, length_app. simpl. rewrite length_app, repeat_length. simpl. lia. }
    specialize (Hcell _ Hi).
    assert (Hn : nth (List.length pre + 1 + j) x NaN = NaN).
    { rewrite Hx. apply nth_nan_block, Hj. }
    rewrite Hn in Hcell. destruct Hcell as [v [Hi1 Hv1]].
    exists v. split; [exact Hv1|].
    rewrite Hx in Hi1.
    rewrite where_valid_app, dropna_app in Hi1. cbn [where_valid dropna app Nat.add] in Hi1.
    rewrite where_valid_app, dropna_app in Hi1. cbn [where_valid dropna app Nat.add] in Hi1.
    rewrite where_valid_repeat_nan, dropna_repeat_nan, repeat_length in Hi1.
    cbn [where_valid dropna app Nat.add] in Hi1.
    rewrite interp1_between in Hi1.
    + injection Hi1 as <-.
      replace (List.length pre + 1 + j)%nat with (List.length pre + (j + 1))%nat by lia.
      rewrite of_nat_S, !of_nat_add.
      assert (Hk : 0 <= of_nat k) by (apply (of_nat_le 0), Nat.le_0_l).
      change (of_nat 1) with 1.
      generalize dependent (of_nat k). generalize (of_nat j).
      generalize (of_nat (List.length pre)). intros n0 j0 k0 Hk.
      field. lra.
    + apply where_valid_length.
    + apply upper_bounds_to, of_nat_le. lia.
    + apply of_nat_lt. lia.
    + apply of_nat_lt. lia.
    + apply lower_bounds_from, of_nat_le. lia.
Qed.

Lemma C10_interpolate_nans_edges_witness :
  let x := [NaN; Fin 1; NaN; NaN; Fin 4; NaN] in
  existsb (fun v => negb (isnan v)) x = true
  /\ exists y,
       interpolate_nans x = Ok y
       /\ nth 0 y NaN = Fin 1
       /\ nth 5 y NaN = Fin 4
       /\ exists v, nth 2 y NaN = Fin v /\ v == 2.
Proof.
  intros x.
  assert (H : existsb (fun v => negb (isnan v)) x = true) by reflexivity.
  split; [exact H|].
  destruct (C10_interpolate_nans_edges x H) as [y [Hy [_ [Hlead [Htrail Hmid]]]]].
  exists y. split; [exact Hy|]. split; [|split].
  - apply (Hlead 1%nat 1 [NaN; NaN; Fin 4; NaN] 0%nat); [reflexivity | lia].
  - apply (Htrail [NaN; Fin 1; NaN; NaN] 4 1%nat 0%nat); [reflexivity | lia].
  - destruct (Hmid [NaN] 1 2%nat 4 [NaN] 0%nat) as [v [Hv Hq]]; [reflexivity | lia |].
    exists v. split; [exact Hv|]. rewrite Hq. reflexivity.
Defined.

(** ** De-meaning and zero-phase filtering *)
























Lemma demean_length (x : list value) : List.length (demean x) = List.length x.
Proof. unfold demean. apply length_map. Qed.




(** ** Spectral estimator *)

Section Spectral.

Variable get_window : string -> nat -> list Q.
Variable periodogram : Q -> list Q -> list value -> list value.
Variable log10 : Q -> value.

Lemma spectrogram_axes (x : list value) (fs : Q) (win : list Q) (nperseg noverlap : nat)
    (f t : list Q) (S : grid) :
  spectrogram periodogram x fs win nperseg noverlap = Ok (f, t, S) ->
  f = rfftfreq nperseg fs
  /\ t = frame_times ((List.length x - noverlap) / (nperseg - noverlap))
                     nperseg (nperseg - noverlap) fs.
Proof.
  unfold spectrogram.
  destruct (List.length x <? List.length win)%nat; [discriminate|].
  destruct (negb (List.length win =? nperseg)%nat); [discriminate|].
  destruct (nperseg <=? noverlap)%nat; [discriminate|].
  intros E. injection E as <- <- _. split; reflexivity.
Qed.

Lemma spectrogram_ok (x : list value) (fs : Q) (win : list Q) (nperseg noverlap : nat) :
  List.length win = nperseg -> (nperseg <= List.length x)%nat -> (noverlap < nperseg)%nat ->
  exists S,
    spectrogram periodogram x fs win nperseg noverlap
    = Ok (rfftfreq nperseg fs,
          frame_times ((List.length x - noverlap) / (nperseg - noverlap))
                      nperseg (nperseg - noverlap) fs,
          S).
Proof.
  intros Hw Hx Ho. unfold spectrogram.
  rewrite Hw, Nat.eqb_refl.
  destruct (Nat.ltb_spec (List.length x) nperseg); [lia|].
  simpl negb. cbv iota.
  destruct (Nat.leb_spec nperseg noverlap); [lia|].
  eexists. reflexivity.
Qed.

Variable df : DataFrame.
Let win : list Q := get_window "hamming" WINDOW_SIZE.
Hypothesis Hwin : List.length win = WINDOW_SIZE.

(** One turn of the channel loop: it succeeds whatever axes the state
    already holds, and overwrites none. *)
Lemma psd_channel_ok (st : psd_state) (ch : string) (x : list value) :
  to_numpy df ch = Ok x -> (WINDOW_SIZE <= List.length x)%nat ->
  exists g,
    psd_channel periodogram log10 df win st ch
    = Ok (mkState (psd st ++ [(ch, g)])
            (match freqs st with
             | None => Some (rfftfreq WINDOW_SIZE SAMPLE_RATE)
             | Some f => Some f
             end)
            (match freqs st with
             | None => Some (frame_times (frames (List.length x))
                               WINDOW_SIZE SLIDE_RATE SAMPLE_RATE)
             | Some _ => times st
             end)).
Proof.
  intros Hx Hlen. unfold psd_channel. rewrite Hx. cbn [bind].
  destruct (spectrogram_ok x SAMPLE_RATE win WINDOW_SIZE (WINDOW_SIZE - SLIDE_RATE)
              Hwin Hlen) as [S HS].
  { unfold WINDOW_SIZE, SLIDE_RATE. lia. }
  rewrite HS. cbn [bind]. cbv iota beta.
  eexists. destruct (freqs st); reflexivity.
Qed.

Lemma psd_loop_cons (st : psd_state) (ch : string) (chs : list string) :
  psd_loop periodogram log10 df win st (ch :: chs)
  = (st' <- psd_channel periodogram log10 df win st ch ;;
     psd_loop periodogram log10 df win st' chs).
Proof. reflexivity. Qed.

Lemma psd_loop_keeps (chs : list string) :
  forall (st : psd_state) (f : list Q),
    estimable df chs -> freqs st = Some f ->
    exists st',
      psd_loop periodogram log10 df win st chs = Ok st'
      /\ freqs st' = Some f /\ times st' = times st
      /\ map fst (psd st') = map fst (psd st) ++ chs.
Proof.
  induction chs as [|ch chs IH]; intros st f Hest Hf; simpl.
  - exists st. rewrite app_nil_r. auto.
  - destruct (Hest ch (or_introl eq_refl)) as [x [Hx Hlen]].
    destruct (psd_channel_ok st ch x Hx Hlen) as [g Hg].
    rewrite Hg. cbn [bind]. rewrite Hf.
    destruct (IH (mkState (psd st ++ [(ch, g)]) (Some f) (times st)) f)
      as [st' [E [H1 [H2 H3]]]];
      [intros c Hc; apply Hest; right; exact Hc | reflexivity |].
    exists st'. split; [exact E|]. split; [exact H1|]. split; [exact H2|].
    rewrite H3. simpl psd. rewrite map_app, <- app_assoc. reflexivity.
Qed.

(** The estimator on a recording whose four channels can be estimated:
    it returns, with the axes of the first channel of the catalogue. *)
Lemma compute_muse_psd_ok (x0 : list value) :
  estimable df CHANNELS -> to_numpy df "AF7" = Ok x0 ->
  exists p,
    compute_muse_psd get_window periodogram log10 df
    = Ok (Some (rfftfreq WINDOW_SIZE SAMPLE_RATE),
          Some (frame_times (frames (List.length x0)) WINDOW_SIZE SLIDE_RATE SAMPLE_RATE),
          p)
    /\ map fst p = CHANNELS.
Proof.
  intros Hest Hx0. unfold compute_muse_psd. fold win.
  unfold CHANNELS at 1. rewrite psd_loop_cons.
  destruct (Hest "AF7" (or_introl eq_refl)) as [x [Hx Hlen]].
  rewrite Hx0 in Hx. injection Hx as <-.
  destruct (psd_channel_ok (mkState [] None None) "AF7" x0 Hx0 Hlen) as [g Hg].
  rewrite Hg. cbn [bind psd freqs times app].
  set (st1 := mkState [("AF7", g)]
                (Some (rfftfreq WINDOW_SIZE SAMPLE_RATE))
                (Some (frame_times (frames (List.length x0))
                         WINDOW_SIZE SLIDE_RATE SAMPLE_RATE))).
  destruct (psd_loop_keeps ["AF8"; "TP9"; "TP10"] st1 (rfftfreq WINDOW_SIZE SAMPLE_RATE))
    as [st' [E [H1 [H2 H3]]]]; [| reflexivity | ].
  { intros c Hc. apply Hest. right. exact Hc. }
  rewrite E. cbn [bind]. rewrite H1, H2.
  eexists. split; [reflexivity|]. rewrite H3. reflexivity.
Qed.

End Spectral.







(** ** Where the numeric parameters come from *)









(** ** Band-power aggregator *)

Lemma mapM_ok {A B : Type} (f : A -> result B) (g : A -> B) (l : list A) :
  (forall x, In x l -> f x = Ok (g x)) -> mapM f l = Ok (map g l).
Proof.
  induction l as [|x l IH]; intros H; simpl; [reflexivity|].
  rewrite (H x (or_introl eq_refl)), IH; [reflexivity|].
  intros y Hy. apply H. right. exact Hy.
Qed.

Lemma band_bins_from (fmin fmax : Q) (fr : list Q) :
  forall s : nat,
    band_bins s fr fmin fmax
    = filter (fun i => Qle_bool fmin (nth (i - s) fr 0) && Qle_bool (nth (i - s) fr 0) fmax)
             (seq s (List.length fr)).
Proof.
  induction fr as [|f fr IH]; intros s; [reflexivity|].
  simpl band_bins. simpl List.length. simpl seq. simpl filter.
  rewrite Nat.sub_diag. simpl nth.
  rewrite (IH (S s)).
  assert (E : filter (fun i => Qle_bool fmin (nth (i - S s) fr 0)
                               && Qle_bool (nth (i - S s) fr 0) fmax)
                (seq (S s) (List.length fr))
              = filter (fun i => Qle_bool fmin (nth (i - s) (f :: fr) 0)
                                 && Qle_bool (nth (i - s) (f :: fr) 0) fmax)
                  (seq (S s) (List.length fr))).
  { apply filter_ext_in. intros i Hi. apply in_seq in Hi.
    replace (i - s)%nat with (S (i - S s)) by lia. reflexivity. }
  rewrite E. reflexivity.
Qed.

Lemma band_bins_within (fr : list Q) (fmin fmax : Q) :
  band_bins 0 fr fmin fmax = bins_within fr fmin fmax.
Proof.
  rewrite band_bins_from. unfold bins_within. apply filter_ext.
  intros i. rewrite Nat.sub_0_r. reflexivity.
Qed.

Lemma bins_within_bound (fr : list Q) (fmin fmax : Q) (i : nat) :
  In i (bins_within fr fmin fmax) -> (i < List.length fr)%nat.
Proof.
  unfold bins_within. intros H. apply filter_In in H. destruct H as [H _].
  apply in_seq in H. lia.
Qed.

Lemma take_rows_ok (g : grid) (idx : list nat) :
  (forall i, In i idx -> (i < List.length g)%nat) ->
  take_rows g idx = Ok (map (fun i => nth i g []) idx).
Proof.
  intros H. unfold take_rows. apply mapM_ok. intros i Hi.
  rewrite (nth_error_nth' g [] (H i Hi)). reflexivity.
Qed.

Lemma add_rows_length (a b : list value) :
  List.length a = List.length b -> List.length (add_rows a b) = List.length a.
Proof.
  revert b. induction a as [|x a IH]; intros [|y b] H; simpl in *; try lia.
  f_equal. apply IH. lia.
Qed.

Lemma add_rows_nth (a b : list value) (j : nat) :
  List.length a = List.length b -> (j < List.length a)%nat ->
  nth j (add_rows a b) NaN = add (nth j a NaN) (nth j b NaN).
Proof.
  revert b j. induction a as [|x a IH]; intros [|y b] j H Hj; simpl in *; try lia.
  destruct j; [reflexivity|]. apply IH; lia.
Qed.

(** Summing rows cell by cell is summing every column. *)
Lemma sum_rows_columns (T : nat) (rows : grid) :
  Forall (fun r => List.length r = T) rows ->
  forall acc, List.length acc = T ->
    fold_left add_rows rows acc
    = map (fun j => fold_left add (map (fun r => nth j r NaN) rows) (nth j acc NaN))
          (seq 0 T).
Proof.
  induction 1 as [|r rows Hr Hrows IH]; intros acc Hacc; simpl.
  - subst T. symmetry. apply nth_seq_self.
  - rewrite IH by (rewrite add_rows_length; congruence).
    apply map_ext_in. intros j Hj. apply in_seq in Hj.
    rewrite add_rows_nth; [reflexivity | congruence | lia].
Qed.

Lemma nth_repeat_lt {A : Type} (a d : A) (n j : nat) :
  (j < n)%nat -> nth j (repeat a n) d = a.
Proof.
  revert j. induction n as [|n IH]; intros j Hj; [lia|].
  destruct j; [reflexivity|]. simpl. apply IH. lia.
Qed.

Lemma combine_map_same {A B C : Type} (f : A -> B) (g : A -> C) (l : list A) :
  combine (map f l) (map g l) = map (fun x => (f x, g x)) l.
Proof. induction l; simpl; [reflexivity | f_equal; assumption]. Qed.

Lemma nth_linear (pow10 : Q -> Q) (g : grid) (i j : nat) :
  nth j (nth i (map (map (lift (fun q => Fin (pow10 (q / 10))))) g) []) NaN
  = linear_power pow10 (nth j (nth i g []) NaN).
Proof.
  unfold linear_power.
  change (@nil value) with (map (lift (fun q => Fin (pow10 (q / 10)))) []) at 1.
  rewrite map_nth.
  change NaN with (lift (fun q => Fin (pow10 (q / 10))) NaN) at 1.
  rewrite map_nth. reflexivity.
Qed.

Lemma linear_rows_length (pow10 : Q -> Q) (fr tm : list Q) (g : grid) (i : nat) :
  fits_axes fr tm g -> (i < List.length fr)%nat ->
  List.length (nth i (map (map (lift (fun q => Fin (pow10 (q / 10))))) g) [])
  = List.length tm.
Proof.
  intros [Hrows Hcells] Hi.
  change (@nil value) with (map (lift (fun q => Fin (pow10 (q / 10)))) []).
  rewrite map_nth, length_map.
  rewrite Forall_forall in Hcells. apply Hcells. apply nth_In. lia.
Qed.

(** One band of one channel: the rows of the specification. *)
Lemma band_records_rows (log10 : Q -> value) (pow10 : Q -> Q) (fr tm : list Q)
    (ch : string) (g : grid) (b : string * (Q * Q)) :
  fits_axes fr tm g ->
  band_records log10 fr tm ch (map (map (lift (fun q => Fin (pow10 (q / 10))))) g) b
  = Ok (band_rows log10 pow10 fr tm ch g b).
Proof.
  intros Hfit. destruct b as [band [fmin fmax]].
  unfold band_records, band_rows. cbn [fst snd].
  rewrite band_bins_within.
  destruct (bins_within fr fmin fmax) as [|i0 idx] eqn:Eb; [reflexivity|].
  set (L := map (map (lift (fun q => Fin (pow10 (q / 10))))) g).
  assert (Hin : forall i, In i (i0 :: idx) -> (i < List.length fr)%nat).
  { intros i Hi. rewrite <- Eb in Hi. eapply bins_within_bound. exact Hi. }
  rewrite take_rows_ok.
  2:{ intros i Hi. unfold L. rewrite length_map. destruct Hfit as [Hrows _].
      specialize (Hin i Hi). lia. }
  cbn [bind]. f_equal. unfold sum_axis0.
  set (rows := map (fun i => nth i L []) (i0 :: idx)).
  assert (Hrows : Forall (fun r => List.length r = List.length tm) rows).
  { apply Forall_forall. intros r Hr. apply in_map_iff in Hr.
    destruct Hr as [i [<- Hi]]. apply (linear_rows_length pow10 fr); auto. }
  assert (Hhd : List.length (hd [] rows) = List.length tm).
  { unfold rows. simpl hd. apply (linear_rows_length pow10 fr); auto.
    apply Hin. left. reflexivity. }
  rewrite Hhd.
  rewrite (sum_rows_columns (List.length tm) rows Hrows) by apply repeat_length.
  rewrite map_map.
  rewrite <- (nth_seq_self 0 tm) at 1.
  rewrite combine_map_same, map_map. cbn [fst snd].
  apply f_equal. apply map_ext_in. intros j Hj. apply in_seq in Hj.
  do 3 f_equal. unfold band_power. rewrite Eb.
  rewrite nth_repeat_lt by lia. f_equal.
  unfold rows. rewrite map_map. apply map_ext. intros i. apply nth_linear.
Qed.

(** C4.  For a spectrogram in decibels whose grids fit the axes, the
    aggregator returns, channel after channel and band after band of the
    catalogue, one row per time frame holding [log10(S + eps)], where [S]
    sums the linear power [10^(dB/10)] of the frequency bins whose centre
    lies within [[f_min, f_max]], bounds included; a band that matches no
    bin contributes no row and no error.  The floor [eps] is the one the
    estimator adds before it converts to decibels. *)
Theorem C4_band_power_rows :
  forall (log10 : Q -> value) (pow10 : Q -> Q) (fr tm : list Q)
         (spectra : list (string * grid)),
    (forall ch g, In (ch, g) spectra -> fits_axes fr tm g) ->
    compute_bandpowers_time_series log10 pow10 fr tm spectra
    = Ok (flat_map
            (fun cg => flat_map (band_rows log10 pow10 fr tm (fst cg) (snd cg)) BANDS)
            spectra)
    /\ (forall b, In b BANDS -> bins_within fr (fst (snd b)) (snd (snd b)) = [] ->
        forall ch g, band_rows log10 pow10 fr tm ch g b = [])
    /\ (forall periodogram df win st ch st',
           psd_channel periodogram log10 df win st ch = Ok st' ->
           exists Sxx,
             psd st' = psd st
                       ++ [(ch, map (map (fun v =>
                                  scale 10 (lift log10 (add v (Fin floor_eps))))) Sxx)]).
Proof.
  intros lg pw fr tm spectra Hfit. split; [|split].
  - unfold compute_bandpowers_time_series.
    rewrite (mapM_ok _ (fun cg => flat_map (band_rows lg pw fr tm (fst cg) (snd cg)) BANDS)).
    + cbn [bind]. rewrite <- flat_map_concat_map. reflexivity.
    + intros [ch g] Hin. unfold channel_records.
      rewrite (mapM_ok _ (band_rows lg pw fr tm ch g)).
      * cbn [bind fst snd]. rewrite <- flat_map_concat_map. reflexivity.
      * intros b _. apply band_records_rows. apply (Hfit ch g Hin).
  - intros b _ Hb ch g. unfold band_rows. rewrite Hb. reflexivity.
  - intros per df win st ch st'. unfold psd_channel.
    destruct (to_numpy df ch) as [x|e]; [|discriminate]. cbn [bind].
    destruct (spectrogram per x SAMPLE_RATE win WINDOW_SIZE (WINDOW_SIZE - SLIDE_RATE))
      as [[[f t] S]|e]; [|discriminate].
    cbn [bind]. intros E. exists S.
    destruct (freqs st); injection E as <-; reflexivity.
Qed.

Lemma C4_band_power_rows_witness :
  let fr := [0; 1; 2; 3; 4; 5] in
  let tm := [1 # 2; 1] in
  let g := [[Fin 0; Fin 1]; [Fin 10; Fin 20]; [Fin 20; Fin 30];
            [Fin 20; Fin 30]; [Fin 20; Fin 30]; [Fin 20; Fin 30]] in
  (forall ch g', In (ch, g') [("AF7", g)] -> fits_axes fr tm g')
  /\ compute_bandpowers_time_series (fun q => Fin q) (fun q => q) fr tm [("AF7", g)]
     = Ok (flat_map (band_rows (fun q => Fin q) (fun q => q) fr tm "AF7" g) BANDS ++ []).
Proof.
  intros fr tm g.
  assert (H : forall ch g', In (ch, g') [("AF7", g)] -> fits_axes fr tm g').
  { intros ch g' [E|[]]. injection E as _ <-. split; [simpl; lia|].
    repeat constructor. }
  split; [exact H|].
  exact (proj1 (C4_band_power_rows (fun q => Fin q) (fun q => q) fr tm [("AF7", g)] H)).
Defined.

(** ** Baseline normalizer *)

Lemma mem_In (c : string) (l : list string) : mem c l = true <-> In c l.
Proof.
  unfold mem. rewrite existsb_exists. split.
  - intros [x [Hx E]]. apply String.eqb_eq in E. subst x. exact Hx.
  - intros H. exists c. split; [exact H | apply String.eqb_refl].
Qed.

Lemma filter_none {A : Type} (f : A -> bool) (l : list A) :
  (forall x, In x l -> f x = false) -> filter f l = [].
Proof.
  induction l as [|x l IH]; intros H; simpl; [reflexivity|].
  rewrite (H x (or_introl eq_refl)). apply IH. intros y Hy. apply H. right. exact Hy.
Qed.

Lemma filter_id_some (keep : list bool) :
  existsb id keep = true -> (List.length (filter id keep) =? 0)%nat = false.
Proof.
  induction keep as [|[|] keep IH]; simpl; intros H; [discriminate|reflexivity|auto].
Qed.

Lemma lookup_stats (F : string -> value * value) (c : string) (l : list string) :
  lookup c (map (fun k => (k, F k)) l) = if mem c l then Some (F c) else None.
Proof.
  unfold mem. induction l as [|k l IH]; simpl; [reflexivity|].
  rewrite (String.eqb_sym c k).
  destruct (String.eqb_spec k c) as [->|_]; [reflexivity | exact IH].
Qed.

(** Behind the guard of line 59 no quotient is an infinity: the divisor
    is the missing marker or a number other than zero. *)
Lemma divisor_masked (a s : value) : infinite_quotient a (mask_zero s) = false.
Proof.
  destruct a as [|x]; [reflexivity|]. destruct s as [|q]; [reflexivity|].
  simpl. destruct (Qeq_bool q 0) eqn:E; [reflexivity|]. simpl. rewrite E. reflexivity.
Qed.

(** The normalizer on two tables it can work on: it returns, and what it
    returns is the target with each column replaced as
    [normalized_column] says. *)
Lemma normalize_ok (sqrt : Q -> Q) (rest_df exp_df : DataFrame) (ts_col : string)
    (start_buffer end_buffer : Q) (keep : list bool) :
  normalizable rest_df exp_df ts_col start_buffer end_buffer keep ->
  normalize sqrt rest_df exp_df ts_col start_buffer end_buffer
  = Ok (map (normalized_column sqrt rest_df keep) exp_df).
Proof.
  intros [Hsub [[ts [Hts [Hkeep Hsome]]] [Hnum Hexp]]]. unfold normalize.
  rewrite filter_none.
  2:{ intros c Hc. rewrite (Hsub c Hc). reflexivity. }
  rewrite Hts. cbn [bind]. rewrite <- Hkeep. rewrite (filter_id_some keep Hsome).
  rewrite (mapM_ok _ (fun c => (c, (baseline_mean rest_df keep c,
                                    baseline_std sqrt rest_df keep c)))).
  2:{ intros c Hc. unfold baseline, baseline_mean, baseline_std, baseline_sd, window.
      destruct (Hnum c Hc) as [x Hx]. rewrite Hx. reflexivity. }
  cbn [bind]. apply mapM_ok. intros [c col] Hin.
  unfold normalize_column, normalized_column. cbn [fst snd].
  rewrite (lookup_stats (fun c => (baseline_mean rest_df keep c,
                                   baseline_std sqrt rest_df keep c))).
  destruct (mem c (channel_cols rest_df)) eqn:Em; [|reflexivity].
  apply mem_In in Em. destruct (Hexp c col Hin Em) as [xs ->].
  cbn [snd fst].
  rewrite (mapM_ok _ (fun raw => div (sub raw (baseline_mean rest_df keep c))
                                     (baseline_std sqrt rest_df keep c))).
  - reflexivity.
  - intros raw _. unfold zscore, divide. cbn [fst snd].
    unfold baseline_std. rewrite divisor_masked. reflexivity.
Qed.

Lemma get_map (F : string * column -> string * column) (df : DataFrame) (c : string) :
  (forall lc, fst (F lc) = fst lc) ->
  get (map F df) c = (col <- get df c ;; Ok (snd (F (c, col)))).
Proof.
  intros HF. induction df as [|[k col] df IH]; simpl; [reflexivity|].
  pose proof (HF (k, col)) as Hk.
  destruct (F (k, col)) as [k' col'] eqn:E. simpl in Hk. subst k'.
  destruct (String.eqb_spec k c) as [Ekc|_]; [|exact IH].
  subst k. cbn [bind]. rewrite E. reflexivity.
Qed.

Lemma normalized_column_label (sqrt : Q -> Q) (rest_df : DataFrame) (keep : list bool)
    (lc : string * column) :
  fst (normalized_column sqrt rest_df keep lc) = fst lc.
Proof.
  unfold normalized_column.
  destruct (mem (fst lc) (channel_cols rest_df)); [|reflexivity].
  destruct (snd lc); reflexivity.
Qed.

Lemma div_missing (a : value) : div a NaN = NaN.
Proof. destruct a; reflexivity. Qed.

Lemma map_constant {A B : Type} (f : A -> B) (b : B) (l : list A) :
  (forall x, f x = b) -> map f l = repeat b (List.length l).
Proof. intros H. induction l; simpl; [reflexivity | rewrite H; f_equal; assumption]. Qed.

Lemma example_normalizable :
  normalizable rest_example exp_example "lsl_unix_ts" 1 1 [false; true; true; false].
Proof.
  split; [|split; [|split]].
  - intros c Hc. simpl in Hc. destruct Hc as [<-|[<-|[]]]; reflexivity.
  - eexists. split; [reflexivity|]. split; reflexivity.
  - intros c Hc. simpl in Hc. destruct Hc as [<-|[<-|[]]]; eexists; reflexivity.
  - intros c col Hin Hc. simpl in Hc.
    destruct Hc as [<-|[<-|[]]]; simpl in Hin;
      repeat (destruct Hin as [Hin|Hin]; [try discriminate Hin|]); try contradiction;
      injection Hin as <-; eexists; reflexivity.
Qed.

(** C8.  On two tables the normalizer can work on, it returns the target
    with the same columns in the same order: a column that is not a
    reference channel (a timestamp column, say) is unchanged, cell for
    cell, and a reference channel holds (raw - baseline_mean) /
    baseline_std in every cell. *)
Theorem C8_normalize_frame :
  forall (sqrt : Q -> Q) (rest_df exp_df : DataFrame) (ts_col : string)
         (start_buffer end_buffer : Q) (keep : list bool),
    normalizable rest_df exp_df ts_col start_buffer end_buffer keep ->
    exists exp_norm,
      normalize sqrt rest_df exp_df ts_col start_buffer end_buffer = Ok exp_norm
      /\ labels exp_norm = labels exp_df
      /\ forall i c col,
           nth_error exp_df i = Some (c, col) ->
           (~ In c (channel_cols rest_df) -> nth_error exp_norm i = Some (c, col))
           /\ (In c (channel_cols rest_df) ->
               exists xs,
                 col = NumCol xs
                 /\ nth_error exp_norm i
                    = Some (c, NumCol (map (fun raw =>
                                 div (sub raw (baseline_mean rest_df keep c))
                                     (baseline_std sqrt rest_df keep c)) xs))).
Proof.
  intros sqrt rest_df exp_df ts_col sb eb keep Hn.
  exists (map (normalized_column sqrt rest_df keep) exp_df).
  split; [apply normalize_ok, Hn|]. split.
  - unfold labels. rewrite map_map. apply map_ext. apply normalized_column_label.
  - intros i c col Hi. rewrite nth_error_map, Hi. simpl option_map.
    unfold normalized_column. cbn [fst snd]. split.
    + intros Hc. destruct (mem c (channel_cols rest_df)) eqn:Em; [|reflexivity].
      apply mem_In in Em. contradiction.
    + intros Hc. rewrite (proj2 (mem_In c _) Hc).
      destruct Hn as [_ [_ [_ Hexp]]].
      destruct (Hexp c col (nth_error_In _ _ Hi) Hc) as [xs ->].
      exists xs. split; reflexivity.
Qed.

Lemma C8_normalize_frame_witness :
  normalizable rest_example exp_example "lsl_unix_ts" 1 1 [false; true; true; false]
  /\ exists exp_norm,
       normalize sqrt_floor rest_example exp_example "lsl_unix_ts" 1 1 = Ok exp_norm
       /\ labels exp_norm = labels exp_example.
Proof.
  split; [exact example_normalizable|].
  destruct (C8_normalize_frame sqrt_floor rest_example exp_example "lsl_unix_ts" 1 1 _
              example_normalizable) as [out [H1 [H2 _]]].
  exists out. split; [exact H1 | exact H2].
Defined.

(** C2.  On two tables the normalizer can work on, it returns (no error of
    any kind, and no division by zero: the guard of line 59 has put the
    missing marker in the place of a zero divisor); a reference channel whose
    standard deviation over the culled window is exactly zero comes out
    with the missing marker in every cell, and one whose standard
    deviation [s] is not zero comes out as (raw - mean) / s, missing only
    where the raw sample or the mean is. *)
Theorem C2_zero_std_gives_missing :
  forall (sqrt : Q -> Q) (rest_df exp_df : DataFrame) (ts_col : string)
         (start_buffer end_buffer : Q) (keep : list bool),
    normalizable rest_df exp_df ts_col start_buffer end_buffer keep ->
    exists exp_norm,
      normalize sqrt rest_df exp_df ts_col start_buffer end_buffer = Ok exp_norm
      /\ forall c xs,
           In c (channel_cols rest_df) -> to_numpy exp_df c = Ok xs ->
           (equals 0 (baseline_sd sqrt rest_df keep c) ->
            to_numpy exp_norm c = Ok (repeat NaN (List.length xs)))
           /\ (forall s,
                  baseline_sd sqrt rest_df keep c = Fin s -> ~ s == 0 ->
                  to_numpy exp_norm c
                  = Ok (map (fun raw =>
                               match raw, baseline_mean rest_df keep c with
                               | Fin r, Fin m => Fin ((r - m) / s)
                               | _, _ => NaN
                               end) xs)).
Proof.
  intros sqrt rest_df exp_df ts_col sb eb keep Hn.
  exists (map (normalized_column sqrt rest_df keep) exp_df).
  split; [apply normalize_ok, Hn|].
  intros c xs Hc Hxs.
  assert (Hcol : to_numpy (map (normalized_column sqrt rest_df keep) exp_df) c
                 = Ok (map (fun raw => div (sub raw (baseline_mean rest_df keep c))
                                           (baseline_std sqrt rest_df keep c)) xs)).
  { unfold to_numpy in *. rewrite get_map by apply normalized_column_label.
    destruct (get exp_df c) as [[ys|ss]|e]; try discriminate.
    cbn [bind] in *. injection Hxs as ->.
    unfold normalized_column. cbn [fst snd]. rewrite (proj2 (mem_In c _) Hc).
    reflexivity. }
  rewrite Hcol. split.
  - intros Hz. f_equal. apply map_constant. intros raw.
    unfold baseline_std. destruct (baseline_sd sqrt rest_df keep c) as [|s]; simpl in Hz;
      [contradiction|].
    simpl mask_zero. rewrite (Qeq_eq_bool _ _ Hz). apply div_missing.
  - intros s Hs Hnz. f_equal. apply map_ext. intros raw.
    unfold baseline_std. rewrite Hs. simpl mask_zero. rewrite (Qeq_bool_false _ _ Hnz).
    destruct raw as [|r]; [reflexivity|].
    destruct (baseline_mean rest_df keep c) as [|m]; [reflexivity|].
    simpl. rewrite (Qeq_bool_false _ _ Hnz). reflexivity.
Qed.

Lemma C2_zero_std_gives_missing_witness :
  normalizable rest_example exp_example "lsl_unix_ts" 1 1 [false; true; true; false]
  /\ In "AF7" (channel_cols rest_example)
  /\ to_numpy exp_example "AF7" = Ok [Fin 5; Fin 6]
  /\ equals 0 (baseline_sd sqrt_floor rest_example [false; true; true; false] "AF7")
  /\ exists exp_norm,
       normalize sqrt_floor rest_example exp_example "lsl_unix_ts" 1 1 = Ok exp_norm
       /\ to_numpy exp_norm "AF7" = Ok [NaN; NaN].
Proof.
  assert (H1 : In "AF7" (channel_cols rest_example)) by (left; reflexivity).
  assert (H2 : to_numpy exp_example "AF7" = Ok [Fin 5; Fin 6]) by reflexivity.
  assert (H3 : equals 0 (baseline_sd sqrt_floor rest_example [false; true; true; false] "AF7"))
    by reflexivity.
  split; [exact example_normalizable|]. split; [exact H1|]. split; [exact H2|].
  split; [exact H3|].
  destruct (C2_zero_std_gives_missing sqrt_floor rest_example exp_example "lsl_unix_ts" 1 1 _
              example_normalizable) as [out [Hout Hcells]].
  exists out. split; [exact Hout|].
  exact (proj1 (Hcells "AF7" _ H1 H2) H3).
Defined.

(* ================================================================= *)
(** * Further properties of the scripts *)

(** ** The rate estimate, continued *)

Lemma dropna_Fin (qs : list Q) : dropna (map Fin qs) = qs.
Proof. induction qs; simpl; [reflexivity | f_equal; assumption]. Qed.

Lemma get_missing (df : DataFrame) (name : string) :
  ~ In name (labels df) -> get df name = Raise (KeyError name).
Proof.
  induction df as [|[c col] df IH]; intros H; simpl; [reflexivity|].
  destruct (String.eqb_spec c name) as [->|_].
  - exfalso. apply H. left. reflexivity.
  - apply IH. intros Hin. apply H. right. exact Hin.
Qed.

Lemma get_present (df : DataFrame) (name : string) :
  In name (labels df) -> exists col, get df name = Ok col /\ In (name, col) df.
Proof.
  induction df as [|[c col] df IH]; intros H; simpl in *; [contradiction|].
  destruct (String.eqb_spec c name) as [->|Hne].
  - exists col. split; [reflexivity | left; reflexivity].
  - destruct H as [H|H]; [contradiction|].
    destruct (IH H) as [col' [E Hin]]. exists col'. split; [exact E | right; exact Hin].
Qed.

(** X2.  The rate estimator fails before it computes anything when the
    timestamp column is not usable: with a KeyError naming the column when
    the table has no such column, with a TypeError when the column holds
    text. *)
Theorem X2_estimate_needs_numeric_column :
  forall (df : DataFrame) (timestamp_col : string) (is_milli : bool),
    (~ In timestamp_col (labels df) ->
     estimate_sample_rate_duration df timestamp_col is_milli
     = Raise (KeyError timestamp_col))
    /\ (forall ss, get df timestamp_col = Ok (StrCol ss) ->
        estimate_sample_rate_duration df timestamp_col is_milli = Raise TypeError).
Proof.
  intros df col ms. split.
  - intros H. unfold estimate_sample_rate_duration, to_numpy.
    rewrite (get_missing df col H). reflexivity.
  - intros ss H. unfold estimate_sample_rate_duration, to_numpy. rewrite H. reflexivity.
Qed.

Lemma X2_estimate_needs_numeric_column_witness :
  let df := [("TimeStamp", StrCol ["2024-01-01 00:00:00.000"]); ("TP9", NumCol [Fin 1])] in
  ~ In "unix_ms" (labels df)
  /\ estimate_sample_rate_duration df "unix_ms" true = Raise (KeyError "unix_ms")
  /\ estimate_sample_rate_duration df "TimeStamp" true = Raise TypeError.
Proof.
  intros df.
  assert (H : ~ In "unix_ms" (labels df)).
  { simpl. intros [E|[E|[]]]; discriminate E. }
  split; [exact H|]. split.
  - exact (proj1 (X2_estimate_needs_numeric_column df "unix_ms" true) H).
  - exact (proj2 (X2_estimate_needs_numeric_column df "TimeStamp" true) _ eq_refl).
Defined.

(** ** De-duplication, continued *)

Lemma insert_key_below (k : string) (ks : list string) :
  Forall (String_as_OT.lt k) ks -> insert_key k ks = k :: ks.
Proof.
  intros H. destruct ks as [|h t]; [reflexivity|].
  inversion H as [|? ? Hh _]; subst. simpl.
  unfold String_as_OT.lt in Hh. rewrite Hh. reflexivity.
Qed.

Lemma sorted_keys_fixed (ks : list string) :
  StronglySorted String_as_OT.lt ks -> fold_right insert_key [] ks = ks.
Proof.
  induction 1 as [|k ks Hs IH Hk]; simpl; [reflexivity|].
  rewrite IH. apply insert_key_below, Hk.
Qed.

Lemma group_single (rows : list row) (r : row) :
  NoDup (map TimeStamp rows) -> In r rows -> group (TimeStamp r) rows = [r].
Proof.
  induction rows as [|r0 rows IH]; intros Hnd Hin; [contradiction|].
  simpl in Hnd. inversion Hnd as [|? ? Hnot Hnd']; subst.
  unfold group. simpl filter. destruct Hin as [->|Hin].
  - rewrite String.eqb_refl. f_equal.
    apply filter_none. intros r' Hr'. apply String.eqb_neq. intros E.
    apply Hnot. rewrite <- E. apply in_map. exact Hr'.
  - destruct (String.eqb_spec (TimeStamp r0) (TimeStamp r)) as [E|_].
    + exfalso. apply Hnot. rewrite E. apply in_map. exact Hin.
    + apply IH; assumption.
Qed.

Lemma last_valid_one (x : value) : last_valid [x] = x.
Proof. destruct x; reflexivity. Qed.

Lemma first_valid_one (x : value) : first_valid [x] = x.
Proof. destruct x; reflexivity. Qed.

(** A key that occurs once: the group's row is returned as it is. *)
Lemma aggregate_single (agg : list value -> value) (rows : list row) (r : row) :
  (forall x, agg [x] = x) ->
  group (TimeStamp r) rows = [r] ->
  List.length (cells r) = width rows ->
  aggregate agg (TimeStamp r) rows = r.
Proof.
  intros Hagg Hg Hw. unfold aggregate. rewrite Hg, <- Hw.
  rewrite (map_ext _ (fun j => nth j (cells r) NaN)).
  - rewrite nth_seq_self. destruct r; reflexivity.
  - intros j. simpl. apply Hagg.
Qed.

Lemma dedup_agg (choice : string) (rows : list row) :
  exists agg,
    (forall x, agg [x] = x)
    /\ dedup choice rows = map (fun k => aggregate agg k rows) (group_keys rows).
Proof.
  unfold dedup. destruct (String.eqb choice "last").
  - exists last_valid. split; [exact last_valid_one | reflexivity].
  - exists first_valid. split; [exact first_valid_one | reflexivity].
Qed.

(** A table in ascending key order without repeated keys comes back as
    it is. *)
Lemma dedup_clean (choice : string) (rows : list row) :
  StronglySorted String_as_OT.lt (map TimeStamp rows) -> rectangular rows ->
  dedup choice rows = rows.
Proof.
  intros Hs Hrect. destruct (dedup_agg choice rows) as [agg [Hagg ->]].
  unfold group_keys. rewrite (sorted_keys_fixed _ Hs), map_map.
  rewrite <- (map_id rows) at 2. apply map_ext_in. intros r Hr.
  apply aggregate_single; [exact Hagg | |].
  - apply group_single; [apply sorted_keys_NoDup, Hs | exact Hr].
  - unfold rectangular in Hrect. rewrite Forall_forall in Hrect. apply Hrect, Hr.
Qed.

Lemma dedup_widths (choice : string) (rows : list row) :
  Forall (fun g => List.length (cells g) = width rows) (dedup choice rows).
Proof.
  destruct (dedup_agg choice rows) as [agg [_ ->]].
  apply Forall_forall. intros g Hg. apply in_map_iff in Hg.
  destruct Hg as [k [<- _]]. unfold aggregate. simpl.
  rewrite length_map, length_seq. reflexivity.
Qed.

Lemma dedup_rectangular (choice : string) (rows : list row) :
  rectangular (dedup choice rows).
Proof.
  pose proof (dedup_widths choice rows) as H. unfold rectangular.
  destruct (dedup choice rows) as [|g out] eqn:E; [constructor|].
  inversion H as [|? ? Hg _]; subst. simpl width. rewrite Hg. exact H.
Qed.

Lemma insert_key_length (k : string) (ks : list string) :
  (List.length (insert_key k ks) <= S (List.length ks))%nat.
Proof.
  induction ks as [|h t IH]; simpl; [lia|].
  destruct (String_as_OT.compare k h); simpl; lia.
Qed.

Lemma group_keys_length (rows : list row) :
  (List.length (group_keys rows) <= List.length rows)%nat.
Proof.
  unfold group_keys. induction rows as [|r rows IH]; simpl; [lia|].
  pose proof (insert_key_length (TimeStamp r) (fold_right insert_key [] (map TimeStamp rows))).
  lia.
Qed.

(** X3.  Whatever the tie-break, the de-duplicated table is in strictly
    ascending order of the key (not in the order of the input), has no
    more rows than the input, and every row of it has the width of the
    input table. *)
Theorem X3_dedup_sorted_and_bounded :
  forall (choice : string) (rows : list row),
    StronglySorted String_as_OT.lt (map TimeStamp (dedup choice rows))
    /\ (List.length (dedup choice rows) <= List.length rows)%nat
    /\ Forall (fun g => List.length (cells g) = width rows) (dedup choice rows).
Proof.
  intros choice rows. split; [|split].
  - rewrite dedup_keys. apply group_keys_sorted.
  - rewrite <- (length_map TimeStamp), dedup_keys. apply group_keys_length.
  - apply dedup_widths.
Qed.

(** X4.  De-duplication is idempotent: running it on its own result, with
    the same tie-break or the other one, changes nothing. *)
Theorem X4_dedup_idempotent :
  forall (choice choice' : string) (rows : list row),
    dedup choice' (dedup choice rows) = dedup choice rows.
Proof.
  intros choice choice' rows. apply dedup_clean.
  - rewrite dedup_keys. apply group_keys_sorted.
  - apply dedup_rectangular.
Qed.

(** X5.  A rectangular table whose keys already ascend strictly, so that
    no key repeats, passes through de-duplication unchanged, missing cells
    included. *)
Theorem X5_dedup_keeps_clean_table :
  forall (choice : string) (rows : list row),
    StronglySorted String_as_OT.lt (map TimeStamp rows) -> rectangular rows ->
    dedup choice rows = rows.
Proof. exact dedup_clean. Qed.

Lemma X5_dedup_keeps_clean_table_witness :
  let rows := [mkRow "100" [Fin 1; NaN]; mkRow "200" [NaN; Fin 3]] in
  StronglySorted String_as_OT.lt (map TimeStamp rows) /\ rectangular rows
  /\ dedup "last" rows = rows.
Proof.
  intros rows.
  assert (H1 : StronglySorted String_as_OT.lt (map TimeStamp rows)).
  { repeat constructor. }
  assert (H2 : rectangular rows) by (repeat constructor).
  split; [exact H1|]. split; [exact H2|].
  exact (X5_dedup_keeps_clean_table "last" rows H1 H2).
Defined.

(** X6.  The tie-break matters only for repeated keys: on a table in which
    no key occurs twice, ['last'] and ['first'] (and any other setting)
    return the same table. *)
Theorem X6_tie_break_only_on_duplicates :
  forall (choice choice' : string) (rows : list row),
    NoDup (map TimeStamp rows) ->
    dedup choice rows = dedup choice' rows.
Proof.
  intros c c' rows Hnd.
  assert (H : forall agg agg' : list value -> value,
             (forall x, agg [x] = x) -> (forall x, agg' [x] = x) ->
             map (fun k => aggregate agg k rows) (group_keys rows)
             = map (fun k => aggregate agg' k rows) (group_keys rows)).
  { intros agg agg' Ha Ha'. apply map_ext_in. intros k Hk.
    apply group_keys_In, in_map_iff in Hk. destruct Hk as [r [<- Hr]].
    unfold aggregate. rewrite (group_single rows r Hnd Hr). f_equal.
    apply map_ext. intros j. simpl. rewrite Ha, Ha'. reflexivity. }
  destruct (dedup_agg c rows) as [agg [Ha ->]].
  destruct (dedup_agg c' rows) as [agg' [Ha' ->]].
  apply H; assumption.
Qed.

Lemma X6_tie_break_only_on_duplicates_witness :
  let rows := [mkRow "200" [Fin 3; NaN]; mkRow "100" [Fin 1]] in
  NoDup (map TimeStamp rows) /\ dedup "last" rows = dedup "first" rows.
Proof.
  intros rows.
  assert (H : NoDup (map TimeStamp rows)).
  { simpl. constructor; [|constructor; [|constructor]]; simpl.
    - intros [E|[]]. discriminate E.
    - intros []. }
  split; [exact H|].
  exact (X6_tie_break_only_on_duplicates "last" "first" rows H).
Defined.

(** ** NaN interpolation, continued *)

Lemma all_nan_facts (x : list value) :
  existsb (fun v => negb (isnan v)) x = false ->
  where_valid 0 x = [] /\ dropna x = []
  /\ (x <> [] -> existsb isnan x = true /\ exists q r, where_nan 0 x = q :: r).
Proof.
  intros H.
  assert (Hall : Forall (fun v => v = NaN) x).
  { induction x as [|[|q] x IH]; simpl in H; [constructor| |discriminate].
    constructor; [reflexivity | apply IH, H]. }
  clear H. split; [|split].
  - generalize 0%nat. induction Hall as [|v x Hv _ IH]; intros s; [reflexivity|].
    subst v. simpl. apply IH.
  - induction Hall as [|v x Hv _ IH]; [reflexivity|]. subst v. exact IH.
  - intros Hne. destruct Hall as [|v x Hv _]; [congruence|]. subst v.
    split; [reflexivity|]. simpl. eexists. eexists. reflexivity.
Qed.

Lemma interpolate_all_missing (x : list value) :
  existsb (fun v => negb (isnan v)) x = false -> x <> [] ->
  interpolate_nans x = Raise (ValueError "array of sample points is empty").
Proof.
  intros Hv Hne.
  destruct (all_nan_facts x Hv) as [Hxp [Hfp Hnan]].
  destruct (Hnan Hne) as [Hex [q [r Hq]]].
  unfold interpolate_nans. rewrite Hex, Hxp, Hfp, Hq. reflexivity.
Qed.

(** X7.  A channel that consists of missing samples only cannot be
    interpolated: [interpolate_nans] raises the ValueError of [np.interp]
    (no sample points) instead of filling in a value; the empty channel is
    returned as it is. *)
Theorem X7_interpolate_all_missing_raises :
  forall x : list value,
    existsb (fun v => negb (isnan v)) x = false -> x <> [] ->
    interpolate_nans x = Raise (ValueError "array of sample points is empty")
    /\ interpolate_nans [] = Ok [].
Proof.
  intros x Hv Hne. split; [|reflexivity]. apply interpolate_all_missing; assumption.
Qed.

Lemma X7_interpolate_all_missing_raises_witness :
  let x := [NaN; NaN; NaN] in
  existsb (fun v => negb (isnan v)) x = false /\ x <> []
  /\ interpolate_nans x = Raise (ValueError "array of sample points is empty").
Proof.
  intros x.
  assert (H1 : existsb (fun v => negb (isnan v)) x = false) by reflexivity.
  assert (H2 : x <> []) by discriminate.
  split; [exact H1|]. split; [exact H2|].
  exact (proj1 (X7_interpolate_all_missing_raises x H1 H2)).
Defined.

Lemma present_everywhere (y : list value) :
  (forall i, (i < List.length y)%nat -> exists q, nth i y NaN = Fin q) ->
  existsb isnan y = false.
Proof.
  induction y as [|v y IH]; intros H; [reflexivity|]. simpl.
  destruct (H 0%nat ltac:(simpl; lia)) as [q Hq]. simpl in Hq. subst v. simpl.
  apply IH. intros i Hi. apply (H (S i)). simpl. lia.
Qed.

(** X8.  On a channel with at least one valid sample, [interpolate_nans]
    returns a channel of the same length that has no missing sample left
    and in which every valid sample of the input stands where it stood;
    interpolating the result again returns it unchanged. *)
Theorem X8_interpolate_fills_every_gap :
  forall x : list value,
    existsb (fun v => negb (isnan v)) x = true ->
    exists y,
      interpolate_nans x = Ok y
      /\ List.length y = List.length x
      /\ existsb isnan y = false
      /\ (forall i q, nth_error x i = Some (Fin q) -> nth_error y i = Some (Fin q))
      /\ interpolate_nans y = Ok y.
Proof.
  intros x Hv.
  destruct (interpolate_nans_cells x Hv) as [y [Hy [Hlen Hcell]]].
  assert (Hclean : existsb isnan y = false).
  { apply present_everywhere. intros i Hi. rewrite Hlen in Hi.
    specialize (Hcell i Hi). destruct (nth i x NaN) as [|q].
    - destruct Hcell as [v [_ Hv']]. exists v. exact Hv'.
    - exists q. exact Hcell. }
  exists y. split; [exact Hy|]. split; [exact Hlen|]. split; [exact Hclean|]. split.
  - intros i q Hi.
    assert (Hlt : (i < List.length x)%nat) by (apply nth_error_Some; congruence).
    specialize (Hcell i Hlt).
    rewrite (nth_error_nth _ _ NaN Hi) in Hcell.
    rewrite <- Hcell. apply nth_error_nth'. rewrite Hlen. exact Hlt.
  - unfold interpolate_nans. rewrite Hclean. reflexivity.
Qed.

Lemma X8_interpolate_fills_every_gap_witness :
  let x := [NaN; Fin 1; NaN; NaN; Fin 4; NaN] in
  existsb (fun v => negb (isnan v)) x = true
  /\ exists y, interpolate_nans x = Ok y /\ existsb isnan y = false.
Proof.
  intros x.
  assert (H : existsb (fun v => negb (isnan v)) x = true) by reflexivity.
  split; [exact H|].
  destruct (X8_interpolate_fills_every_gap x H) as [y [Hy [_ [Hc _]]]].
  exists y. split; [exact Hy | exact Hc].
Defined.

(** ** Zero-phase filtering, continued *)

Lemma lfilter_run_length (b a : list Q) (x : list value) :
  forall z, List.length (fst (lfilter_run b a z x)) = List.length x.
Proof.
  induction x as [|x0 x IH]; intros z; simpl; [reflexivity|].
  specialize (IH (delays (tl b) (tl a) (tl z) x0
                    (add (scale (hd 0 b) x0) (hd (Fin 0) z)))).
  destruct (lfilter_run b a _ x) as [ys zf]. simpl in *. f_equal. exact IH.
Qed.

Lemma lfilter_length (b a : list Q) (x zi : list value) (yz : list value * list value) :
  lfilter b a x zi = Ok yz -> List.length (fst yz) = List.length x.
Proof.
  unfold lfilter. destruct a as [|a0 a]; [discriminate|].
  destruct (Qeq_bool a0 0); [discriminate|].
  destruct (negb _); [discriminate|].
  intros E. injection E as <-. apply lfilter_run_length.
Qed.

Lemma odd_ext_length (x : list value) (n : nat) :
  (n < List.length x)%nat -> List.length (odd_ext x n) = (n + List.length x + n)%nat.
Proof.
  intros Hn. unfold odd_ext.
  rewrite !length_app, !length_map, !length_rev, !length_firstn, !length_skipn. lia.
Qed.

Lemma filtfilt_length (lfilter_zi : list Q -> list Q -> result (list Q))
    (b a : list Q) (x y : list value) :
  filtfilt lfilter_zi b a x = Ok y ->
  List.length y = List.length x
  /\ (Nat.max (List.length a) (List.length b) * 3 < List.length x)%nat.
Proof.
  unfold filtfilt.
  set (edge := (Nat.max (List.length a) (List.length b) * 3)%nat).
  destruct (Nat.leb_spec (List.length x) edge) as [Hle|Hgt]; [discriminate|].
  destruct (lfilter_zi b a) as [z|e]; [|discriminate]. cbn [bind].
  destruct (lfilter b a (odd_ext x edge) _) as [yz1|e] eqn:E1; [|discriminate].
  cbn [bind].
  destruct (lfilter b a (rev (fst yz1)) _) as [yz2|e] eqn:E2; [|discriminate].
  cbn [bind]. intros E. injection E as <-. split; [|exact Hgt].
  apply lfilter_length in E1, E2.
  rewrite length_firstn, length_skipn, length_rev, E2, length_rev, E1,
    (odd_ext_length x edge Hgt).
  lia.
Qed.

(** X9.  Zero-phase filtering never changes the number of samples, and it
    needs more samples than its edge padding of three times the number of
    filter coefficients: a shorter or equally long channel is rejected with
    a ValueError, whatever its samples and the coefficients. *)
Theorem X9_filtfilt_length :
  forall (lfilter_zi : list Q -> list Q -> result (list Q)) (b a : list Q) (x : list value),
    ((List.length x <= Nat.max (List.length a) (List.length b) * 3)%nat ->
     filtfilt lfilter_zi b a x
     = Raise (ValueError "The length of the input vector x must be greater than padlen"))
    /\ (forall y, filtfilt lfilter_zi b a x = Ok y ->
        List.length y = List.length x
        /\ (Nat.max (List.length a) (List.length b) * 3 < List.length x)%nat).
Proof.
  intros zi b a x. split.
  - intros Hle. unfold filtfilt.
    destruct (Nat.leb_spec (List.length x) (Nat.max (List.length a) (List.length b) * 3))
      as [_|Hgt]; [reflexivity | lia].
  - intros y. apply filtfilt_length.
Qed.

Lemma X9_filtfilt_length_witness :
  let x := [Fin 1; Fin 2; Fin 3; Fin 4] in
  let b := [5 # 8; 0; 5 # 8] in
  let a := [1; 0; 1 # 4] in
  (List.length x <= Nat.max (List.length a) (List.length b) * 3)%nat
  /\ filtfilt lfilter_zi_explicit b a x
     = Raise (ValueError "The length of the input vector x must be greater than padlen").
Proof.
  intros x b a.
  assert (H : (List.length x <= Nat.max (List.length a) (List.length b) * 3)%nat)
    by (simpl; lia).
  split; [exact H|].
  exact (proj1 (X9_filtfilt_length lfilter_zi_explicit b a x) H).
Defined.

(** *** What decides whether the filters fail *)

Lemma lfilter_outcome (b a : list Q) (x x' zi zi' : list value) :
  List.length zi = List.length zi' ->
  match lfilter b a x zi, lfilter b a x' zi' with
  | Ok _, Ok _ => True
  | Raise e, Raise e' => e = e'
  | _, _ => False
  end.
Proof.
  intros Hz. unfold lfilter. destruct a as [|a0 a]; [reflexivity|].
  destruct (Qeq_bool a0 0); [reflexivity|]. rewrite <- Hz.
  destruct (negb _); [reflexivity | exact I].
Qed.

Lemma filtfilt_error_by_length (lfilter_zi : list Q -> list Q -> result (list Q))
    (b a : list Q) (x x' : list value) (e : error) :
  List.length x = List.length x' ->
  filtfilt lfilter_zi b a x = Raise e -> filtfilt lfilter_zi b a x' = Raise e.
Proof.
  intros Hlen. unfold filtfilt. rewrite <- Hlen.
  set (edge := (Nat.max (List.length a) (List.length b) * 3)%nat).
  destruct (List.length x <=? edge)%nat; [auto|].
  destruct (lfilter_zi b a) as [zi|e0]; [|auto]. cbn [bind].
  pose proof (lfilter_outcome b a (odd_ext x edge) (odd_ext x' edge)
                (map (fun z => scale z (hd NaN (odd_ext x edge))) zi)
                (map (fun z => scale z (hd NaN (odd_ext x' edge))) zi)) as H1.
  rewrite !length_map in H1. specialize (H1 eq_refl).
  destruct (lfilter b a (odd_ext x edge) _) as [yz|e1];
    destruct (lfilter b a (odd_ext x' edge) _) as [yz'|e1']; try contradiction.
  - cbn [bind].
    pose proof (lfilter_outcome b a (rev (fst yz)) (rev (fst yz'))
                  (map (fun z => scale z (last (fst yz) NaN)) zi)
                  (map (fun z => scale z (last (fst yz') NaN)) zi)) as H2.
    rewrite !length_map in H2. specialize (H2 eq_refl).
    destruct (lfilter b a (rev (fst yz)) _) as [yz2|e2];
      destruct (lfilter b a (rev (fst yz')) _) as [yz2'|e2']; try contradiction.
    + cbn [bind]. discriminate.
    + cbn [bind]. intros E. injection E as <-. rewrite H2. reflexivity.
  - cbn [bind]. intros E. injection E as <-. rewrite H1. reflexivity.
Qed.

Lemma filtfilt_alike (lfilter_zi : list Q -> list Q -> result (list Q))
    (b a : list Q) (x x' : list value) :
  List.length x = List.length x' ->
  alike (filtfilt lfilter_zi b a x) (filtfilt lfilter_zi b a x').
Proof.
  intros Hlen.
  destruct (filtfilt lfilter_zi b a x) as [y|e] eqn:E;
    destruct (filtfilt lfilter_zi b a x') as [y'|e'] eqn:E'; cbn [alike].
  - apply filtfilt_length in E, E'. destruct E as [E _]. destruct E' as [E' _]. congruence.
  - apply (filtfilt_error_by_length lfilter_zi b a x' x e' (eq_sym Hlen)) in E'. congruence.
  - apply (filtfilt_error_by_length lfilter_zi b a x x' e Hlen) in E. congruence.
  - apply (filtfilt_error_by_length lfilter_zi b a x x' e Hlen) in E. congruence.
Qed.

(** X11.  Whether the body of the channel loop (de-mean, notch, optional
    band-pass) fails, and with which exception, is decided by the number of
    samples of the channel alone: on two channels of one length it raises
    the same exception or returns on both, and what it returns has the
    length of the channel.  No sample value, missing ones included, makes
    the filters fail. *)
Theorem X11_filter_outcome_by_length :
  forall (lfilter_zi : list Q -> list Q -> result (list Q))
         (b_notch a_notch b_bp a_bp : list Q) (apply_bandpass : bool)
         (x x' : list value),
    List.length x = List.length x' ->
    alike (filter_channel lfilter_zi b_notch a_notch b_bp a_bp apply_bandpass x)
          (filter_channel lfilter_zi b_notch a_notch b_bp a_bp apply_bandpass x')
    /\ (forall y,
          filter_channel lfilter_zi b_notch a_notch b_bp a_bp apply_bandpass x = Ok y ->
          List.length y = List.length x).
Proof.
  intros zi bn an bb ab bp x x' Hlen. unfold filter_channel, apply_filters.
  assert (Hd : List.length (demean x) = List.length (demean x'))
    by (rewrite !demean_length; exact Hlen).
  pose proof (filtfilt_alike zi bn an (demean x) (demean x') Hd) as H1.
  split.
  - destruct (filtfilt zi bn an (demean x)) as [y|e];
      destruct (filtfilt zi bn an (demean x')) as [y'|e']; cbn [alike] in H1;
      try contradiction; cbn [bind]; [|exact H1].
    destruct bp; [apply filtfilt_alike; exact H1 | exact H1].
  - intros y. destruct (filtfilt zi bn an (demean x)) as [y1|e] eqn:E1; [|discriminate].
    cbn [bind]. apply filtfilt_length in E1. destruct E1 as [E1 _].
    rewrite demean_length in E1. destruct bp.
    + intros E2. apply filtfilt_length in E2. destruct E2 as [E2 _]. congruence.
    + intros E2. injection E2 as <-. exact E1.
Qed.

Lemma X11_filter_outcome_by_length_witness :
  let b := [5 # 8; 0; 5 # 8] in
  let a := [1; 0; 1 # 4] in
  alike (filter_channel lfilter_zi_explicit b a [] [] false (repeat (Fin 0) 10))
        (filter_channel lfilter_zi_explicit b a [] [] false (repeat NaN 10)).
Proof.
  intros b a.
  exact (proj1 (X11_filter_outcome_by_length lfilter_zi_explicit b a [] [] false
                  (repeat (Fin 0) 10) (repeat NaN 10) eq_refl)).
Defined.

(** ** The filter stage as a whole *)

Lemma check_channels_ok (df : DataFrame) (chs : list string) :
  (forall ch, In ch chs -> In ch (labels df)) -> check_channels df chs = Ok tt.
Proof.
  induction chs as [|ch chs IH]; intros H; simpl; [reflexivity|].
  fold (mem ch (labels df)). rewrite (proj2 (mem_In ch _) (H ch (or_introl eq_refl))).
  apply IH. intros c Hc. apply H. right. exact Hc.
Qed.

Lemma check_channels_missing (df : DataFrame) (pre : list string) (ch : string)
    (post : list string) :
  (forall c, In c pre -> In c (labels df)) -> ~ In ch (labels df) ->
  check_channels df (pre ++ ch :: post)
  = Raise (ValueError ("Missing EEG channel: " ++ ch)).
Proof.
  induction pre as [|c pre IH]; intros Hpre Hch; simpl.
  - fold (mem ch (labels df)).
    destruct (mem ch (labels df)) eqn:E; [|reflexivity].
    apply mem_In in E. contradiction.
  - fold (mem c (labels df)). rewrite (proj2 (mem_In c _) (Hpre c (or_introl eq_refl))).
    apply IH; [|exact Hch]. intros c' Hc'. apply Hpre. right. exact Hc'.
Qed.

Lemma get_Ok_label (df : DataFrame) (name : string) (col : column) :
  get df name = Ok col -> In name (labels df).
Proof.
  induction df as [|[c col0] df IH]; simpl; [discriminate|].
  destruct (String.eqb_spec c name) as [->|_]; [left; reflexivity|].
  intros H. right. apply IH, H.
Qed.

Lemma to_numpy_label (df : DataFrame) (name : string) (x : list value) :
  to_numpy df name = Ok x -> In name (labels df).
Proof.
  unfold to_numpy. destruct (get df name) as [col|e] eqn:E; [|discriminate].
  intros _. eapply get_Ok_label. exact E.
Qed.

Lemma mapM_inv {A B : Type} (f : A -> result B) (l : list A) (ys : list B) :
  mapM f l = Ok ys -> Forall2 (fun x y => f x = Ok y) l ys.
Proof.
  revert ys. induction l as [|x l IH]; intros ys; simpl.
  - intros E. injection E as <-. constructor.
  - destruct (f x) as [y|e] eqn:Ex; [|discriminate].
    destruct (mapM f l) as [ys'|e]; [|discriminate].
    intros E. injection E as <-. constructor; [exact Ex | apply IH; reflexivity].
Qed.

Lemma mapM_total {A B : Type} (f : A -> result B) (l : list A) :
  (forall x, In x l -> exists y, f x = Ok y) -> exists ys, mapM f l = Ok ys.
Proof.
  induction l as [|x l IH]; intros H; simpl; [eexists; reflexivity|].
  destruct (H x (or_introl eq_refl)) as [y Hy]. rewrite Hy.
  destruct IH as [ys Hys]; [intros z Hz; apply H; right; exact Hz|].
  rewrite Hys. eexists. reflexivity.
Qed.

Lemma mapM_raise {A B : Type} (f : A -> result B) (e : error) (l : list A) :
  (forall x, In x l -> (exists y, f x = Ok y) \/ f x = Raise e) ->
  (exists x, In x l /\ f x = Raise e) ->
  mapM f l = Raise e.
Proof.
  induction l as [|x l IH]; intros Hall [x0 [Hin Hx0]]; [contradiction|]. simpl.
  destruct (Hall x (or_introl eq_refl)) as [[y Hy]|Hr]; [|rewrite Hr; reflexivity].
  rewrite Hy. destruct Hin as [->|Hin]; [congruence|].
  rewrite IH; [reflexivity | intros z Hz; apply Hall; right; exact Hz |].
  exists x0. auto.
Qed.

Lemma interpolate_outcome (x : list value) :
  (exists y, interpolate_nans x = Ok y /\ List.length y = List.length x)
  \/ interpolate_nans x = Raise (ValueError "array of sample points is empty").
Proof.
  destruct (existsb (fun v => negb (isnan v)) x) eqn:Ev.
  - left. destruct (interpolate_nans_cells x Ev) as [y [Hy [Hl _]]]. exists y. auto.
  - destruct x as [|v x'] eqn:Ex.
    + left. exists []. split; reflexivity.
    + right. rewrite <- Ex in *.
      destruct (all_nan_facts x Ev) as [Hxp [Hfp Hnan]].
      destruct Hnan as [Hex [q [r Hq]]]; [rewrite Ex; discriminate|].
      unfold interpolate_nans. rewrite Hex, Hxp, Hfp, Hq. reflexivity.
Qed.

(** X12.  The filter stage fails before it filters anything when the
    recording is unusable: with a ValueError naming the first EEG channel
    that is not a column of the table; and, when the five EEG channels are
    numeric columns, with the ValueError of the interpolation as soon as
    one of them consists of missing samples only. *)
Theorem X12_filter_eeg_rejects_unusable_recording :
  forall iirnotch butter lfilter_zi (df : DataFrame) (apply_bandpass : bool),
    (forall pre ch post,
        EEG_CHANNELS = pre ++ ch :: post ->
        (forall c, In c pre -> In c (labels df)) -> ~ In ch (labels df) ->
        filter_eeg iirnotch butter lfilter_zi df apply_bandpass
        = Raise (ValueError ("Missing EEG channel: " ++ ch)))
    /\ ((forall ch, In ch EEG_CHANNELS -> exists x, to_numpy df ch = Ok x) ->
        (exists ch x, In ch EEG_CHANNELS /\ to_numpy df ch = Ok x /\ x <> []
                      /\ existsb (fun v => negb (isnan v)) x = false) ->
        filter_eeg iirnotch butter lfilter_zi df apply_bandpass
        = Raise (ValueError "array of sample points is empty")).
Proof.
  intros nt bt zi df bp. split.
  - intros pre ch post E Hpre Hch. unfold filter_eeg. rewrite E.
    rewrite (check_channels_missing df pre ch post Hpre Hch). reflexivity.
  - intros Hnum [ch [x [Hch [Hx [Hne Hnan]]]]]. unfold filter_eeg.
    rewrite check_channels_ok.
    2:{ intros c Hc. destruct (Hnum c Hc) as [y Hy]. eapply to_numpy_label, Hy. }
    cbn [bind].
    destruct (mapM_total (to_numpy df) EEG_CHANNELS Hnum) as [xs Hxs].
    rewrite Hxs. cbn [bind].
    rewrite (mapM_raise interpolate_nans (ValueError "array of sample points is empty")).
    + reflexivity.
    + intros y _. destruct (interpolate_outcome y) as [[z [Hz _]]|Hr]; [left|right]; eauto.
    + exists x. split.
      * apply mapM_inv in Hxs. clear -Hxs Hch Hx.
        induction Hxs as [|c y l l' Hc Hl IH]; [contradiction|].
        destruct Hch as [->|Hch]; [left; congruence | right; apply IH, Hch].
      * apply interpolate_all_missing; assumption.
Qed.

Lemma X12_filter_eeg_rejects_unusable_recording_witness :
  let df := [("TimeStamp", StrCol ["t0"]); ("TP9", NumCol [Fin 1])] in
  EEG_CHANNELS = ["TP9"] ++ "AF7" :: ["AF8"; "TP10"; "Right AUX"]
  /\ (forall c, In c ["TP9"] -> In c (labels df))
  /\ ~ In "AF7" (labels df)
  /\ filter_eeg (fun _ _ _ => ([], [])) (fun _ _ _ _ => ([], [])) lfilter_zi_explicit df false
     = Raise (ValueError "Missing EEG channel: AF7").
Proof.
  intros df.
  assert (H1 : EEG_CHANNELS = ["TP9"] ++ "AF7" :: ["AF8"; "TP10"; "Right AUX"]) by reflexivity.
  assert (H2 : forall c, In c ["TP9"] -> In c (labels df)).
  { intros c [<-|[]]. right. left. reflexivity. }
  assert (H3 : ~ In "AF7" (labels df)).
  { simpl. intros [E|[E|[]]]; discriminate E. }
  split; [exact H1|]. split; [exact H2|]. split; [exact H3|].
  exact (proj1 (X12_filter_eeg_rejects_unusable_recording
                  (fun _ _ _ => ([], [])) (fun _ _ _ _ => ([], [])) lfilter_zi_explicit
                  df false) ["TP9"] "AF7" ["AF8"; "TP10"; "Right AUX"] H1 H2 H3).
Defined.

Lemma assign_step_labels (ch : string) (col : list value) (df : DataFrame) :
  labels (map (fun lc => if String.eqb (fst lc) ch then (ch, NumCol col) else lc) df)
  = labels df.
Proof.
  unfold labels. rewrite map_map. apply map_ext. intros [c x]. simpl.
  destruct (String.eqb_spec c ch) as [->|_]; reflexivity.
Qed.

Lemma assign_labels (chs : list string) :
  forall (cols : list (list value)) (df : DataFrame),
    labels (assign df chs cols) = labels df.
Proof.
  induction chs as [|ch chs IH]; intros [|col cols] df; simpl; try reflexivity.
  rewrite IH. apply assign_step_labels.
Qed.

Lemma assign_other (chs : list string) :
  forall (cols : list (list value)) (df : DataFrame) (i : nat) (lc : string * column),
    nth_error df i = Some lc -> ~ In (fst lc) chs ->
    nth_error (assign df chs cols) i = Some lc.
Proof.
  induction chs as [|ch chs IH]; intros [|col cols] df i lc Hi Hc; simpl; try exact Hi.
  apply IH; [|intros H; apply Hc; right; exact H].
  rewrite nth_error_map, Hi. simpl.
  destruct (String.eqb_spec (fst lc) ch) as [E|_]; [|reflexivity].
  exfalso. apply Hc. left. symmetry. exact E.
Qed.

Lemma get_assign_other (chs : list string) (name : string) :
  forall (cols : list (list value)) (df : DataFrame),
    ~ In name chs -> get (assign df chs cols) name = get df name.
Proof.
  induction chs as [|ch chs IH]; intros [|col cols] df Hn; simpl; try reflexivity.
  rewrite IH by (intros H; apply Hn; right; exact H).
  assert (Hne : ch <> name) by (intros E; apply Hn; left; exact E).
  clear -Hne. induction df as [|[c x] df IHdf]; simpl; [reflexivity|].
  destruct (String.eqb_spec c ch) as [->|_]; simpl.
  - destruct (String.eqb_spec ch name) as [E|_]; [contradiction | exact IHdf].
  - destruct (String.eqb c name); [reflexivity | exact IHdf].
Qed.

Lemma get_assign_step (ch : string) (col : list value) (df : DataFrame) :
  In ch (labels df) ->
  get (map (fun lc => if String.eqb (fst lc) ch then (ch, NumCol col) else lc) df) ch
  = Ok (NumCol col).
Proof.
  induction df as [|[c x] df IH]; simpl; [contradiction|].
  destruct (String.eqb_spec c ch) as [->|Hne]; simpl.
  - rewrite String.eqb_refl. reflexivity.
  - intros [E|H]; [contradiction|].
    destruct (String.eqb_spec c ch) as [E|_]; [contradiction | apply IH, H].
Qed.

(** The columns assigned under distinct labels are the columns read back. *)
Lemma get_assign (chs : list string) :
  forall (cols : list (list value)) (df : DataFrame),
    NoDup chs -> List.length cols = List.length chs ->
    (forall ch, In ch chs -> In ch (labels df)) ->
    Forall2 (fun ch col => get (assign df chs cols) ch = Ok (NumCol col)) chs cols.
Proof.
  induction chs as [|ch chs IH]; intros [|col cols] df Hnd Hlen Hin; simpl in *;
    try discriminate; [constructor|].
  inversion Hnd as [|? ? Hnot Hnd']; subst.
  constructor.
  - rewrite get_assign_other by exact Hnot. apply get_assign_step, Hin. left. reflexivity.
  - apply IH; [exact Hnd' | lia |].
    intros c Hc. rewrite assign_step_labels. apply Hin. right. exact Hc.
Qed.

Lemma interpolate_length (x y : list value) :
  interpolate_nans x = Ok y -> List.length y = List.length x.
Proof.
  intros H. destruct (interpolate_outcome x) as [[z [Hz Hl]]|Hr]; congruence.
Qed.

Lemma filter_channel_length (lfilter_zi : list Q -> list Q -> result (list Q))
    (b_notch a_notch b_bp a_bp : list Q) (apply_bandpass : bool) (x y : list value) :
  filter_channel lfilter_zi b_notch a_notch b_bp a_bp apply_bandpass x = Ok y ->
  List.length y = List.length x.
Proof.
  unfold filter_channel, apply_filters.
  destruct (filtfilt lfilter_zi b_notch a_notch (demean x)) as [y1|e] eqn:E1; [|discriminate].
  cbn [bind]. intros E2.
  destruct (filtfilt_length _ _ _ _ _ E1) as [H1 _]. rewrite demean_length in H1.
  destruct apply_bandpass; [|injection E2 as <-; exact H1].
  destruct (filtfilt_length _ _ _ _ _ E2) as [H2 _]. congruence.
Qed.

(** X13.  When the filter stage returns, the table it returns has the
    columns of the input, under the same labels and in the same order;
    every column that is not one of the five EEG channels is the input
    column, unchanged; and every EEG channel is a numeric column with as
    many samples as it had. *)
Theorem X13_filter_eeg_frame :
  forall iirnotch butter lfilter_zi (df out : DataFrame) (apply_bandpass : bool),
    filter_eeg iirnotch butter lfilter_zi df apply_bandpass = Ok out ->
    labels out = labels df
    /\ (forall i lc, nth_error df i = Some lc -> ~ In (fst lc) EEG_CHANNELS ->
        nth_error out i = Some lc)
    /\ (forall ch, In ch EEG_CHANNELS ->
        exists x y, to_numpy df ch = Ok x /\ to_numpy out ch = Ok y
                    /\ List.length y = List.length x).
Proof.
  intros nt bt zi df out bp. unfold filter_eeg.
  destruct (check_channels df EEG_CHANNELS) as [[]|e] eqn:Ec; [|discriminate]. cbn [bind].
  destruct (mapM (to_numpy df) EEG_CHANNELS) as [xs|e] eqn:E1; [|discriminate]. cbn [bind].
  destruct (mapM interpolate_nans xs) as [xs'|e] eqn:E2; [|discriminate]. cbn [bind].
  destruct (nt NOTCH_FREQ NOTCH_Q FS) as [b_notch a_notch].
  destruct (bt BANDPASS_ORDER BANDPASS_LOW BANDPASS_HIGH FS) as [b_bp a_bp].
  destruct (mapM (filter_channel zi b_notch a_notch b_bp a_bp bp) xs') as [ys|e] eqn:E3;
    [|discriminate].
  cbn [bind]. intros E.
  assert (Eo : out = assign df EEG_CHANNELS ys) by (injection E; intros <-; reflexivity).
  clear E. rewrite Eo. clear Eo out.
  split; [apply assign_labels|]. split; [intros i lc; apply assign_other|].
  apply mapM_inv in E1, E2, E3.
  assert (Hlab : forall ch, In ch EEG_CHANNELS -> In ch (labels df)).
  { intros ch Hch. clear -E1 Hch. induction E1 as [|c x l l' Hc Hl IH]; [contradiction|].
    destruct Hch as [->|Hch]; [eapply to_numpy_label, Hc | apply IH, Hch]. }
  assert (Hnd : NoDup EEG_CHANNELS).
  { unfold EEG_CHANNELS. repeat constructor; simpl; intuition discriminate. }
  assert (Hlen : List.length ys = List.length EEG_CHANNELS).
  { rewrite <- (Forall2_length E3), <- (Forall2_length E2), <- (Forall2_length E1).
    reflexivity. }
  pose proof (get_assign EEG_CHANNELS ys df Hnd Hlen Hlab) as G.
  revert E1 E2 E3 G. generalize (assign df EEG_CHANNELS ys). intros out E1 E2 E3 G.
  clear -E1 E2 E3 G. revert xs' ys E2 E3 G.
  induction E1 as [|c x chs xs Hc Hl IH]; intros xs' ys E2 E3 G ch Hch; [contradiction|].
  inversion E2 as [|? x' ? xs'' Hx' E2']; subst.
  inversion E3 as [|? y ? ys' Hy E3']; subst.
  inversion G as [|? ? ? ? Hg G']; subst.
  destruct Hch as [->|Hch]; [|apply (IH _ _ E2' E3' G' ch Hch)].
  exists x, y. split; [exact Hc|]. split.
  - unfold to_numpy. rewrite Hg. reflexivity.
  - rewrite (filter_channel_length _ _ _ _ _ _ _ _ Hy). apply interpolate_length, Hx'.
Qed.

Lemma X13_filter_eeg_frame_witness :
  let ramp := NumCol (map (fun n => Fin (of_nat n)) (seq 0 7)) in
  let df := [("unix_ms", NumCol (repeat (Fin 5) 7)); ("TP9", ramp); ("AF7", ramp);
             ("AF8", ramp); ("TP10", ramp); ("Right AUX", ramp);
             ("note", StrCol (repeat "ok" 7))] in
  exists out,
    filter_eeg (fun _ _ _ => ([1; 1], [1])) (fun _ _ _ _ => ([1; 1], [1]))
      lfilter_zi_explicit df false = Ok out
    /\ labels out = labels df.
Proof.
  intros ramp df.
  destruct (filter_eeg (fun _ _ _ => ([1; 1], [1])) (fun _ _ _ _ => ([1; 1], [1]))
              lfilter_zi_explicit df false) as [out|e] eqn:E.
  - exists out. split; [reflexivity|].
    exact (proj1 (X13_filter_eeg_frame _ _ _ df out false E)).
  - exfalso. vm_compute in E. discriminate E.
Defined.

(** ** The spectral stage as a whole *)

Lemma psd_loop_prefix_fails (gw : string -> nat -> list Q)
    (per : Q -> list Q -> list value -> list value) (lg : Q -> value) (df : DataFrame)
    (e : error) (ch : string) (post : list string) :
  List.length (gw "hamming" WINDOW_SIZE) = WINDOW_SIZE ->
  (forall st, psd_channel per lg df (gw "hamming" WINDOW_SIZE) st ch = Raise e) ->
  forall pre st,
    estimable df pre ->
    psd_loop per lg df (gw "hamming" WINDOW_SIZE) st (pre ++ ch :: post) = Raise e.
Proof.
  intros Hwin Hfail. induction pre as [|c pre IH]; intros st Hest; simpl.
  - rewrite Hfail. reflexivity.
  - destruct (Hest c (or_introl eq_refl)) as [x [Hx Hlen]].
    destruct (psd_channel_ok gw per lg df Hwin st c x Hx Hlen) as [g Hg].
    rewrite Hg. cbn [bind]. apply IH. intros c' Hc'. apply Hest. right. exact Hc'.
Qed.

(** X14.  The spectral estimator works through the channels AF7, AF8, TP9,
    TP10 in that order and fails at the first one it cannot estimate: with
    a KeyError naming the channel when the recording has no such column,
    with a ValueError when the channel has fewer samples than one window
    (256). *)
Theorem X14_compute_muse_psd_rejects :
  forall (get_window : string -> nat -> list Q)
         (periodogram : Q -> list Q -> list value -> list value) (log10 : Q -> value)
         (df : DataFrame) (pre : list string) (ch : string) (post : list string),
    CHANNELS = pre ++ ch :: post ->
    List.length (get_window "hamming" WINDOW_SIZE) = WINDOW_SIZE ->
    estimable df pre ->
    (~ In ch (labels df) ->
     compute_muse_psd get_window periodogram log10 df = Raise (KeyError ch))
    /\ (forall x, to_numpy df ch = Ok x -> (List.length x < WINDOW_SIZE)%nat ->
        compute_muse_psd get_window periodogram log10 df
        = Raise (ValueError "window is longer than input signal")).
Proof.
  intros gw per lg df pre ch post Ech Hwin Hest. split.
  - intros Hmiss. unfold compute_muse_psd. rewrite Ech.
    rewrite (psd_loop_prefix_fails gw per lg df (KeyError ch) ch post Hwin);
      [reflexivity | | exact Hest].
    intros st. unfold psd_channel, to_numpy. rewrite (get_missing df ch Hmiss). reflexivity.
  - intros x Hx Hshort. unfold compute_muse_psd. rewrite Ech.
    rewrite (psd_loop_prefix_fails gw per lg df
               (ValueError "window is longer than input signal") ch post Hwin);
      [reflexivity | | exact Hest].
    intros st. unfold psd_channel. rewrite Hx. cbn [bind]. unfold spectrogram.
    rewrite Hwin. destruct (Nat.ltb_spec (List.length x) WINDOW_SIZE); [reflexivity | lia].
Qed.

Lemma X14_compute_muse_psd_rejects_witness :
  let df := [("AF7", NumCol (repeat (Fin 0) 256)); ("AF8", NumCol (repeat (Fin 0) 100))] in
  CHANNELS = ["AF7"] ++ "AF8" :: ["TP9"; "TP10"]
  /\ List.length (flat_window "hamming" WINDOW_SIZE) = WINDOW_SIZE
  /\ estimable df ["AF7"]
  /\ compute_muse_psd flat_window flat_spectrum flat_log df
     = Raise (ValueError "window is longer than input signal").
Proof.
  intros df.
  assert (H1 : CHANNELS = ["AF7"] ++ "AF8" :: ["TP9"; "TP10"]) by reflexivity.
  assert (H2 : List.length (flat_window "hamming" WINDOW_SIZE) = WINDOW_SIZE) by reflexivity.
  assert (H3 : estimable df ["AF7"]).
  { intros c [<-|[]]. eexists. split; [reflexivity|]. rewrite repeat_length. apply Nat.le_refl. }
  split; [exact H1|]. split; [exact H2|]. split; [exact H3|].
  refine (proj2 (X14_compute_muse_psd_rejects flat_window flat_spectrum flat_log df
                   ["AF7"] "AF8" ["TP9"; "TP10"] H1 H2 H3) (repeat (Fin 0) 100) eq_refl _).
  rewrite repeat_length. unfold WINDOW_SIZE. lia.
Defined.

Lemma transpose_fits (nbins : nat) (cols : list (list value)) :
  List.length (transpose nbins cols) = nbins
  /\ Forall (fun r => List.length r = List.length cols) (transpose nbins cols).
Proof.
  unfold transpose. split.
  - rewrite length_map, length_seq. reflexivity.
  - apply Forall_forall. intros r Hr. apply in_map_iff in Hr.
    destruct Hr as [k [<- _]]. apply length_map.
Qed.

Lemma spectrogram_fits (per : Q -> list Q -> list value -> list value)
    (x : list value) (fs : Q) (win : list Q) (nperseg noverlap : nat)
    (f t : list Q) (S : grid) :
  spectrogram per x fs win nperseg noverlap = Ok (f, t, S) ->
  List.length S = List.length f /\ fits_axes f t S.
Proof.
  unfold spectrogram.
  destruct (List.length x <? List.length win)%nat; [discriminate|].
  destruct (negb (List.length win =? nperseg)%nat); [discriminate|].
  destruct (nperseg <=? noverlap)%nat; [discriminate|].
  intros E. injection E as <- <- <-.
  match goal with |- context [transpose ?n ?c] =>
    destruct (transpose_fits n c) as [Hr Hc]; set (g := transpose n c) in * end.
  assert (Hf : List.length g = List.length (rfftfreq nperseg fs)).
  { rewrite Hr. unfold rfftfreq. rewrite length_map, length_seq. reflexivity. }
  split; [exact Hf|]. split; [rewrite Hf; apply Nat.le_refl|].
  eapply Forall_impl; [|exact Hc]. intros r ->.
  unfold frame_times. rewrite !length_map, !length_seq. reflexivity.
Qed.

Lemma fits_axes_map (h : value -> value) (fr tm : list Q) (g : grid) :
  fits_axes fr tm g -> fits_axes fr tm (map (map h) g).
Proof.
  intros [Hr Hc]. split; [rewrite length_map; exact Hr|].
  apply Forall_forall. intros r Hin. apply in_map_iff in Hin.
  destruct Hin as [r0 [<- Hr0]]. rewrite length_map.
  rewrite Forall_forall in Hc. apply Hc. exact Hr0.
Qed.

(** The grid one turn of the channel loop stores fits the axes of a channel
    of that length. *)
Lemma psd_channel_fits (per : Q -> list Q -> list value -> list value) (lg : Q -> value)
    (df : DataFrame) (win : list Q) (st st' : psd_state) (ch : string) (x : list value) :
  to_numpy df ch = Ok x ->
  psd_channel per lg df win st ch = Ok st' ->
  exists g,
    psd st' = psd st ++ [(ch, g)]
    /\ fits_axes (rfftfreq WINDOW_SIZE SAMPLE_RATE)
         (frame_times (frames (List.length x)) WINDOW_SIZE SLIDE_RATE SAMPLE_RATE) g.
Proof.
  intros Hx. unfold psd_channel. rewrite Hx. cbn [bind].
  destruct (spectrogram per x SAMPLE_RATE win WINDOW_SIZE (WINDOW_SIZE - SLIDE_RATE))
    as [[[f t] S]|e] eqn:E; [|discriminate].
  cbn [bind]. cbv iota beta.
  destruct (spectrogram_axes per x SAMPLE_RATE win WINDOW_SIZE (WINDOW_SIZE - SLIDE_RATE)
              f t S E) as [Hf Ht].
  destruct (spectrogram_fits per x SAMPLE_RATE win WINDOW_SIZE (WINDOW_SIZE - SLIDE_RATE)
              f t S E) as [_ Hfit].
  intros H. eexists. split.
  - destruct (freqs st); injection H as <-; reflexivity.
  - apply fits_axes_map. rewrite Hf, Ht in Hfit. exact Hfit.
Qed.

Lemma psd_loop_fits (per : Q -> list Q -> list value -> list value) (lg : Q -> value)
    (df : DataFrame) (win : list Q) (n : nat) (chs : list string) :
  (forall ch, In ch chs -> exists x, to_numpy df ch = Ok x /\ List.length x = n) ->
  forall st st',
    Forall (fun cg => fits_axes (rfftfreq WINDOW_SIZE SAMPLE_RATE)
                        (frame_times (frames n) WINDOW_SIZE SLIDE_RATE SAMPLE_RATE) (snd cg))
           (psd st) ->
    psd_loop per lg df win st chs = Ok st' ->
    Forall (fun cg => fits_axes (rfftfreq WINDOW_SIZE SAMPLE_RATE)
                        (frame_times (frames n) WINDOW_SIZE SLIDE_RATE SAMPLE_RATE) (snd cg))
           (psd st').
Proof.
  induction chs as [|ch chs IH]; intros Hlen st st' Hst; simpl.
  - intros E. injection E as <-. exact Hst.
  - destruct (psd_channel per lg df win st ch) as [st1|e] eqn:E1; [|discriminate].
    cbn [bind]. intros E.
    destruct (Hlen ch (or_introl eq_refl)) as [x [Hx Hn]].
    destruct (psd_channel_fits per lg df win st st1 ch x Hx E1) as [g [Hp Hg]].
    apply (IH (fun c Hc => Hlen c (or_intror Hc)) st1 st'); [|exact E].
    rewrite Hp. apply Forall_app. split; [exact Hst|].
    constructor; [|constructor]. cbn [snd]. rewrite <- Hn. exact Hg.
Qed.

Lemma bandpowers_ok (lg : Q -> value) (pw : Q -> Q) (fr tm : list Q)
    (p : list (string * grid)) :
  Forall (fun cg => fits_axes fr tm (snd cg)) p ->
  compute_bandpowers_time_series lg pw fr tm p
  = Ok (flat_map (fun cg => flat_map (band_rows lg pw fr tm (fst cg) (snd cg)) BANDS) p).
Proof.
  intros Hfit. rewrite Forall_forall in Hfit.
  unfold compute_bandpowers_time_series.
  rewrite (mapM_ok _ (fun cg => flat_map (band_rows lg pw fr tm (fst cg) (snd cg)) BANDS)).
  - cbn [bind]. rewrite <- flat_map_concat_map. reflexivity.
  - intros [ch g] Hin. unfold channel_records.
    rewrite (mapM_ok _ (band_rows lg pw fr tm ch g)).
    + cbn [bind fst snd]. rewrite <- flat_map_concat_map. reflexivity.
    + intros b _. apply band_records_rows. apply (Hfit (ch, g) Hin).
Qed.

Lemma flat_map_length_const {A B : Type} (f : A -> list B) (k : nat) (l : list A) :
  (forall a, In a l -> List.length (f a) = k) ->
  List.length (flat_map f l) = (List.length l * k)%nat.
Proof.
  induction l as [|a l IH]; intros H; simpl; [reflexivity|].
  rewrite length_app, (H a (or_introl eq_refl)), IH; [reflexivity|].
  intros b Hb. apply H. right. exact Hb.
Qed.

(** On the frequency axis of the estimator every band of the catalogue has
    a bin, so each band gives a row per time frame. *)
Lemma band_rows_length (lg : Q -> value) (pw : Q -> Q) (tm : list Q) (ch : string)
    (g : grid) (b : string * (Q * Q)) :
  In b BANDS ->
  List.length (band_rows lg pw (rfftfreq WINDOW_SIZE SAMPLE_RATE) tm ch g b)
  = List.length tm.
Proof.
  intros Hb. unfold band_rows.
  assert (Hne : bins_within (rfftfreq WINDOW_SIZE SAMPLE_RATE) (fst (snd b)) (snd (snd b))
                <> []).
  { simpl in Hb. destruct Hb as [<-|[<-|[<-|[<-|[<-|[]]]]]]; vm_compute; discriminate. }
  destruct (bins_within (rfftfreq WINDOW_SIZE SAMPLE_RATE) (fst (snd b)) (snd (snd b)));
    [contradiction Hne; reflexivity|].
  rewrite length_map, length_seq. reflexivity.
Qed.

(** X15.  The two stages of the spectral script compose.  On a recording
    whose four channels are numeric columns of one common length [n] of at
    least one window, the estimator returns axes of 129 frequency bins and
    [frames n] time frames and one grid per channel, in the order of the
    catalogue, each with a cell for every bin and frame; the band-power
    aggregator then accepts that result and returns exactly one row per
    channel, band and time frame: [4 * 5 * frames n] rows. *)
Theorem X15_bandpowers_of_estimate :
  forall (get_window : string -> nat -> list Q)
         (periodogram : Q -> list Q -> list value -> list value)
         (log10 : Q -> value) (pow10 : Q -> Q) (df : DataFrame) (n : nat),
    List.length (get_window "hamming" WINDOW_SIZE) = WINDOW_SIZE ->
    (WINDOW_SIZE <= n)%nat ->
    (forall ch, In ch CHANNELS -> exists x, to_numpy df ch = Ok x /\ List.length x = n) ->
    exists f t p recs,
      compute_muse_psd get_window periodogram log10 df = Ok (Some f, Some t, p)
      /\ List.length f = 129%nat /\ List.length t = frames n
      /\ map fst p = CHANNELS
      /\ Forall (fun cg => List.length (snd cg) = 129%nat
                           /\ Forall (fun r => List.length r = frames n) (snd cg)) p
      /\ compute_bandpowers_time_series log10 pow10 f t p = Ok recs
      /\ recs = flat_map
                  (fun cg => flat_map (band_rows log10 pow10 f t (fst cg) (snd cg)) BANDS) p
      /\ List.length recs = (4 * 5 * frames n)%nat.
Proof.
  intros gw per lg pw df n Hwin Hn Hch.
  assert (Hest : estimable df CHANNELS).
  { intros ch Hin. destruct (Hch ch Hin) as [x [Hx Hl]]. exists x. split; [exact Hx|].
    rewrite Hl. exact Hn. }
  destruct (Hch "AF7" (or_introl eq_refl)) as [x0 [Hx0 Hl0]].
  destruct (compute_muse_psd_ok gw per lg df Hwin x0 Hest Hx0) as [p [E Hp]].
  rewrite Hl0 in E.
  set (F := rfftfreq WINDOW_SIZE SAMPLE_RATE) in *.
  set (T := frame_times (frames n) WINDOW_SIZE SLIDE_RATE SAMPLE_RATE) in *.
  assert (HF : List.length F = 129%nat) by reflexivity.
  assert (HT : List.length T = frames n).
  { unfold T, frame_times. rewrite length_map, length_seq. reflexivity. }
  assert (Hfit : Forall (fun cg => fits_axes F T (snd cg)) p).
  { pose proof E as E'. unfold compute_muse_psd in E'.
    destruct (psd_loop per lg df (gw "hamming" WINDOW_SIZE) (mkState [] None None) CHANNELS)
      as [st|e] eqn:El; [|discriminate].
    cbn [bind] in E'. injection E' as _ _ <-.
    apply (psd_loop_fits per lg df (gw "hamming" WINDOW_SIZE) n CHANNELS Hch
             (mkState [] None None) st);
      [constructor | exact El]. }
  assert (Hshape : Forall (fun cg => List.length (snd cg) = 129%nat
                     /\ Forall (fun r => List.length r = frames n) (snd cg)) p).
  { pose proof E as E'. unfold compute_muse_psd in E'.
    destruct (psd_loop per lg df (gw "hamming" WINDOW_SIZE) (mkState [] None None) CHANNELS)
      as [st|e] eqn:El; [|discriminate].
    cbn [bind] in E'. injection E' as _ _ <-.
    clear - El Hch.
    assert (G : forall chs st0 st1,
               (forall ch, In ch chs ->
                  exists x, to_numpy df ch = Ok x /\ List.length x = n) ->
               Forall (fun cg => List.length (snd cg) = 129%nat
                         /\ Forall (fun r => List.length r = frames n) (snd cg)) (psd st0) ->
               psd_loop per lg df (gw "hamming" WINDOW_SIZE) st0 chs = Ok st1 ->
               Forall (fun cg => List.length (snd cg) = 129%nat
                         /\ Forall (fun r => List.length r = frames n) (snd cg)) (psd st1)).
    { induction chs as [|ch chs IH]; intros st0 st1 Hl H0; simpl.
      - intros E. injection E as <-. exact H0.
      - destruct (psd_channel per lg df (gw "hamming" WINDOW_SIZE) st0 ch)
          as [st2|e] eqn:E1; [|discriminate].
        cbn [bind]. intros E.
        apply (IH st2 st1 (fun c Hc => Hl c (or_intror Hc))); [|exact E].
        destruct (Hl ch (or_introl eq_refl)) as [x [Hx Hlen]].
        unfold psd_channel in E1. rewrite Hx in E1. cbn [bind] in E1.
        destruct (spectrogram per x SAMPLE_RATE (gw "hamming" WINDOW_SIZE) WINDOW_SIZE
                    (WINDOW_SIZE - SLIDE_RATE)) as [[[f t] S]|e] eqn:Es; [|discriminate].
        cbn [bind] in E1. cbv iota beta in E1.
        destruct (spectrogram_axes per x SAMPLE_RATE _ WINDOW_SIZE
                    (WINDOW_SIZE - SLIDE_RATE) f t S Es) as [Hf Ht].
        destruct (spectrogram_fits per x SAMPLE_RATE _ WINDOW_SIZE
                    (WINDOW_SIZE - SLIDE_RATE) f t S Es) as [HS [_ Hc]].
        assert (Hp : psd st2
                     = psd st0 ++ [(ch, map (map (fun v =>
                          scale 10 (lift lg (add v (Fin (1 # 1000000000000)))))) S)]).
        { destruct (freqs st0); injection E1 as <-; reflexivity. }
        rewrite Hp. apply Forall_app. split; [exact H0|].
        constructor; [|constructor]. cbn [snd]. split.
        + rewrite length_map, HS, Hf. reflexivity.
        + apply Forall_forall. intros r Hr. apply in_map_iff in Hr.
          destruct Hr as [r0 [<- Hr0]]. rewrite length_map.
          rewrite Forall_forall in Hc. rewrite (Hc r0 Hr0), Ht.
          unfold frame_times. rewrite length_map, length_seq, <- Hlen. reflexivity. }
    apply (G CHANNELS (mkState [] None None) st Hch); [constructor | exact El]. }
  exists F, T, p, (flat_map (fun cg => flat_map (band_rows lg pw F T (fst cg) (snd cg)) BANDS) p).
  split; [exact E|]. split; [exact HF|]. split; [exact HT|]. split; [exact Hp|].
  split; [exact Hshape|]. split; [apply bandpowers_ok; exact Hfit|]. split; [reflexivity|].
  rewrite (flat_map_length_const _ (5 * frames n) p).
  - rewrite <- (length_map fst p), Hp. simpl List.length. lia.
  - intros cg _. rewrite (flat_map_length_const _ (frames n) BANDS).
    + reflexivity.
    + intros b Hb. unfold F. rewrite band_rows_length by exact Hb. exact HT.
Qed.

Lemma X15_bandpowers_of_estimate_witness :
  exists f t p recs,
    compute_muse_psd flat_window flat_spectrum flat_log (recording 300 300 300 300)
    = Ok (Some f, Some t, p)
    /\ compute_bandpowers_time_series flat_log (fun q => q) f t p = Ok recs
    /\ List.length recs = 60%nat.
Proof.
  assert (H1 : List.length (flat_window "hamming" WINDOW_SIZE) = WINDOW_SIZE) by reflexivity.
  assert (H2 : (WINDOW_SIZE <= 300)%nat) by (unfold WINDOW_SIZE; lia).
  assert (H3 : forall ch, In ch CHANNELS ->
                 exists x, to_numpy (recording 300 300 300 300) ch = Ok x
                           /\ List.length x = 300%nat).
  { intros ch Hin. simpl in Hin.
    destruct Hin as [<-|[<-|[<-|[<-|[]]]]]; eexists; (split; [reflexivity|]);
      apply repeat_length. }
  destruct (X15_bandpowers_of_estimate flat_window flat_spectrum flat_log (fun q => q)
              (recording 300 300 300 300) 300 H1 H2 H3)
    as [f [t [p [recs [E [_ [_ [_ [_ [Eb [_ Hl]]]]]]]]]]].
  exists f, t, p, recs. split; [exact E|]. split; [exact Eb|]. exact Hl.
Defined.

(** ** The normalizer's checks *)

Lemma filter_first {A : Type} (f : A -> bool) (l : list A) (a : A) :
  In a l -> f a = true -> exists b r, filter f l = b :: r.
Proof.
  induction l as [|x l IH]; intros Hin Hf; [contradiction|]. simpl.
  destruct (f x) eqn:Ex; [eexists; eexists; reflexivity|].
  destruct Hin as [->|Hin]; [congruence|]. apply IH; assumption.
Qed.

(** X16.  The normalizer checks its inputs in a fixed order.  A channel
    of the reference that the target lacks is a ValueError, whatever the
    timestamp column and the buffers are; with every channel present, a
    timestamp column that the reference lacks is a KeyError naming it. *)
Theorem X16_normalize_checks_in_order :
  forall (sqrt : Q -> Q) (rest_df exp_df : DataFrame) (ts_col : string)
         (start_buffer end_buffer : Q),
    ((exists c, In c (channel_cols rest_df) /\ ~ In c (labels exp_df)) ->
     normalize sqrt rest_df exp_df ts_col start_buffer end_buffer
     = Raise (ValueError "Experimental CSV missing channels"))
    /\ ((forall c, In c (channel_cols rest_df) -> In c (labels exp_df)) ->
        ~ In ts_col (labels rest_df) ->
        normalize sqrt rest_df exp_df ts_col start_buffer end_buffer
        = Raise (KeyError ts_col)).
Proof.
  intros sqrt rest_df exp_df ts_col sb eb. split.
  - intros [c [Hc Hmiss]]. unfold normalize.
    destruct (filter_first (fun c => negb (mem c (labels exp_df))) (channel_cols rest_df) c Hc)
      as [b [r E]].
    { destruct (mem c (labels exp_df)) eqn:Em; [|reflexivity].
      apply mem_In in Em. contradiction. }
    rewrite E. reflexivity.
  - intros Hall Hts. unfold normalize.
    rewrite filter_none.
    + unfold to_numpy. rewrite (get_missing rest_df ts_col Hts). reflexivity.
    + intros c Hc. apply Bool.negb_false_iff. apply mem_In. apply Hall. exact Hc.
Qed.

Lemma X16_normalize_checks_in_order_witness :
  (exists c, In c (channel_cols rest_example) /\ ~ In c (labels [("unix_ms", NumCol [Fin 0])]))
  /\ normalize (fun q => q) rest_example [("unix_ms", NumCol [Fin 0])] "nowhere" 5 5
     = Raise (ValueError "Experimental CSV missing channels").
Proof.
  assert (H : exists c, In c (channel_cols rest_example)
                        /\ ~ In c (labels [("unix_ms", NumCol [Fin 0])])).
  { exists (hd "" (channel_cols rest_example)). split.
    - vm_compute. left. reflexivity.
    - vm_compute. intros [E|[]]. discriminate E. }
  split; [exact H|].
  exact (proj1 (X16_normalize_checks_in_order (fun q => q) rest_example
                  [("unix_ms", NumCol [Fin 0])] "nowhere" 5 5) H).
Defined.










(** ** Runs of repeated rows *)

Lemma length_filter_split {A : Type} (p q : A -> bool) (l : list A) :
  List.length (filter p l)
  = (List.length (filter p (filter q l))
     + List.length (filter p (filter (fun a => negb (q a)) l)))%nat.
Proof.
  induction l as [|a l IH]; simpl; [reflexivity|].
  destruct (q a); simpl; destruct (p a); simpl; lia.
Qed.

Lemma count_occ_filter_other (l : list nat) (g0 g : nat) :
  g <> g0 ->
  count_occ Nat.eq_dec (filter (fun a => negb (a =? g0)%nat) l) g
  = count_occ Nat.eq_dec l g.
Proof.
  intros Hg. induction l as [|a l IH]; simpl; [reflexivity|].
  destruct (Nat.eqb_spec a g0) as [->|Hne]; simpl.
  - destruct (Nat.eq_dec g0 g); [congruence | exact IH].
  - destruct (Nat.eq_dec a g); [f_equal; exact IH | exact IH].
Qed.

Lemma count_occ_length_filter (l : list nat) (g : nat) :
  count_occ Nat.eq_dec l g = List.length (filter (fun a => (a =? g)%nat) l).
Proof.
  induction l as [|a l IH]; simpl; [reflexivity|].
  destruct (Nat.eq_dec a g) as [->|Hne].
  - rewrite Nat.eqb_refl. simpl. f_equal. exact IH.
  - destruct (Nat.eqb_spec a g); [contradiction | exact IH].
Qed.

Lemma filter_one_group (f : nat -> nat) (L g0 : nat) (l : list nat) :
  filter (fun g => (f g =? L)%nat) (filter (fun a => (a =? g0)%nat) l)
  = if (f g0 =? L)%nat then filter (fun a => (a =? g0)%nat) l else [].
Proof.
  induction l as [|a l IHl]; simpl; [destruct (f g0 =? L)%nat; reflexivity|].
  destruct (Nat.eqb_spec a g0) as [->|Hne]; [|exact IHl].
  simpl. rewrite IHl. destruct (f g0 =? L)%nat; reflexivity.
Qed.

(** In any list of group labels, the rows whose group has size [L] come in
    whole groups. *)
Lemma rows_of_size_divide (L : nat) :
  forall (n : nat) (ids : list nat),
    (List.length ids <= n)%nat ->
    Nat.divide L
      (List.length (filter (fun g => (count_occ Nat.eq_dec ids g =? L)%nat) ids)).
Proof.
  induction n as [|n IH]; intros ids Hn.
  - destruct ids; [|simpl in Hn; lia]. simpl. apply Nat.divide_0_r.
  - destruct ids as [|g0 r]; [simpl; apply Nat.divide_0_r|].
    set (ids := g0 :: r) in *.
    rewrite (length_filter_split _ (fun a => (a =? g0)%nat) ids).
    apply Nat.divide_add_r.
    + assert (E : filter (fun g => (count_occ Nat.eq_dec ids g =? L)%nat)
                    (filter (fun a => (a =? g0)%nat) ids)
                  = if (count_occ Nat.eq_dec ids g0 =? L)%nat
                    then filter (fun a => (a =? g0)%nat) ids else []).
      { apply filter_one_group. }
      rewrite E. destruct (Nat.eqb_spec (count_occ Nat.eq_dec ids g0) L) as [HL|HL].
      * rewrite <- count_occ_length_filter, HL. apply Nat.divide_refl.
      * simpl. apply Nat.divide_0_r.
    + set (ids' := filter (fun a => negb (a =? g0)%nat) ids).
      assert (E : filter (fun g => (count_occ Nat.eq_dec ids g =? L)%nat) ids'
                  = filter (fun g => (count_occ Nat.eq_dec ids' g =? L)%nat) ids').
      { apply filter_ext_in. intros g Hg. unfold ids' in Hg. apply filter_In in Hg.
        destruct Hg as [_ Hg]. apply Bool.negb_true_iff in Hg. apply Nat.eqb_neq in Hg.
        unfold ids'. rewrite count_occ_filter_other by exact Hg. reflexivity. }
      rewrite E. apply IH.
      assert (Hl : (List.length ids' <= List.length r)%nat).
      { unfold ids', ids. simpl. rewrite Nat.eqb_refl. simpl. apply filter_length_le. }
      simpl in Hn. lia.
Qed.

Lemma count_occ_map_filter (f : nat -> nat) (l : list nat) (L : nat) :
  count_occ Nat.eq_dec (map f l) L = List.length (filter (fun g => (f g =? L)%nat) l).
Proof.
  induction l as [|a l IH]; simpl; [reflexivity|].
  destruct (Nat.eq_dec (f a) L) as [E|E].
  - rewrite E, Nat.eqb_refl. simpl. f_equal. exact IH.
  - destruct (Nat.eqb_spec (f a) L); [contradiction | exact IH].
Qed.

Lemma list_sum_indicator (c a n : nat) :
  list_sum (map (fun v => if Nat.eq_dec c v then 1%nat else 0%nat) (seq a n))
  = if (a <=? c)%nat && (c <? a + n)%nat then 1%nat else 0%nat.
Proof.
  revert a. induction n as [|n IH]; intros a; simpl.
  - destruct (Nat.leb_spec a c); destruct (Nat.ltb_spec c (a + 0)); simpl; try reflexivity; lia.
  - rewrite IH. destruct (Nat.eq_dec c a) as [->|Hne].
    + destruct (Nat.leb_spec (S a) a); [lia|].
      destruct (Nat.leb_spec a a); [|lia].
      destruct (Nat.ltb_spec a (a + S n)); [|lia]. reflexivity.
    + destruct (Nat.leb_spec (S a) c); destruct (Nat.leb_spec a c);
        destruct (Nat.ltb_spec c (S a + n)); destruct (Nat.ltb_spec c (a + S n));
        simpl; try reflexivity; lia.
Qed.

Lemma list_sum_add (f g : nat -> nat) (l : list nat) :
  list_sum (map (fun v => (f v + g v)%nat) l)
  = (list_sum (map f l) + list_sum (map g l))%nat.
Proof. induction l as [|a l IH]; simpl; [reflexivity | rewrite IH; lia]. Qed.

Lemma list_sum_count_occ (s : list nat) (n : nat) :
  Forall (fun c => (c < n)%nat) s ->
  list_sum (map (count_occ Nat.eq_dec s) (seq 0 n)) = List.length s.
Proof.
  induction 1 as [|c s Hc _ IH]; simpl.
  - induction (seq 0 n); simpl; [reflexivity | assumption].
  - rewrite (map_ext _ (fun v => ((if Nat.eq_dec c v then 1 else 0)
                                   + count_occ Nat.eq_dec s v)%nat)).
    + rewrite list_sum_add, IH, list_sum_indicator.
      destruct (Nat.ltb_spec c (0 + n)); [reflexivity | lia].
    + intros v. destruct (Nat.eq_dec c v); reflexivity.
Qed.

Lemma list_sum_filter (f : nat -> nat) (p : nat -> bool) (l : list nat) :
  (forall v, p v = false -> f v = 0%nat) ->
  list_sum (map f (filter p l)) = list_sum (map f l).
Proof.
  intros H. induction l as [|a l IH]; simpl; [reflexivity|].
  destruct (p a) eqn:E; simpl; [f_equal; exact IH|].
  rewrite (H a E). exact IH.
Qed.

Lemma list_max_bound (s : list nat) : Forall (fun c => (c < S (list_max s))%nat) s.
Proof.
  apply Forall_forall. intros c Hc.
  pose proof (proj1 (list_max_le s (list_max s)) (Nat.le_refl _)) as H.
  rewrite Forall_forall in H. specialize (H c Hc). lia.
Qed.

Lemma existsb_eqb_In (v : nat) (s : list nat) : existsb (Nat.eqb v) s = true <-> In v s.
Proof.
  rewrite existsb_exists. split.
  - intros [x [Hx E]]. apply Nat.eqb_eq in E. subst x. exact Hx.
  - intros H. exists v. split; [exact H | apply Nat.eqb_refl].
Qed.

Lemma value_counts_total (s : list nat) :
  list_sum (map snd (value_counts_sorted s)) = List.length s.
Proof.
  unfold value_counts_sorted. rewrite map_map. cbn [snd].
  rewrite list_sum_filter.
  - apply list_sum_count_occ. apply list_max_bound.
  - intros v Hv. apply count_occ_not_In. intros Hin.
    apply existsb_eqb_In in Hin. congruence.
Qed.

Lemma seq_sorted (n : nat) : forall a, StronglySorted lt (seq a n).
Proof.
  induction n as [|n IH]; intros a; simpl; constructor; [apply IH|].
  apply Forall_forall. intros x Hx. apply in_seq in Hx. lia.
Qed.

Lemma filter_sorted (p : nat -> bool) (l : list nat) :
  StronglySorted lt l -> StronglySorted lt (filter p l).
Proof.
  induction 1 as [|a l Hs IH Ha]; simpl; [constructor|].
  destruct (p a); [|exact IH]. constructor; [exact IH|].
  apply Forall_forall. intros x Hx. apply filter_In in Hx.
  rewrite Forall_forall in Ha. apply Ha. tauto.
Qed.

Lemma cumsum_length (mask : list bool) : forall acc, List.length (cumsum acc mask) = List.length mask.
Proof.
  induction mask as [|b r IH]; intros acc; simpl; [reflexivity | f_equal; apply IH].
Qed.

Lemma mapM_get_ok (df : DataFrame) (columns : list string) :
  (forall k, In k columns -> In k (labels df)) ->
  exists cols, mapM (get df) columns = Ok cols.
Proof.
  induction columns as [|k r IH]; intros H; simpl; [eexists; reflexivity|].
  destruct (get_present df k (H k (or_introl eq_refl))) as [col [Hc _]].
  rewrite Hc. destruct IH as [cols Hr]; [intros j Hj; apply H; right; exact Hj|].
  rewrite Hr. eexists. reflexivity.
Qed.

(** X19.  The distribution of run lengths that the validator plots counts
    rows, not runs.  For a non-empty list of columns of the table the
    function returns; the run lengths it lists are at least one and in
    strictly ascending order; the figure beside a run length [L] is a
    positive multiple of [L]; and the figures add up to the number of rows
    of the table. *)
Theorem X19_run_lengths_count_rows :
  forall (df : DataFrame) (columns : list string),
    columns <> [] ->
    (forall k, In k columns -> In k (labels df)) ->
    exists dist,
      get_consecutive_duplicates df columns = Ok dist
      /\ list_sum (map snd dist) = nrows df
      /\ StronglySorted lt (map fst dist)
      /\ Forall (fun lm => (1 <= fst lm)%nat /\ (1 <= snd lm)%nat
                           /\ Nat.divide (fst lm) (snd lm)) dist.
Proof.
  intros df columns Hne Hin.
  destruct (mapM_get_ok df columns Hin) as [cols Hc].
  unfold get_consecutive_duplicates. rewrite Hc. cbn [bind].
  destruct columns as [|c0 rest]; [congruence|].
  set (ids := cumsum 0 (any_axis1 (nrows df) (map column_ne cols))).
  eexists. split; [reflexivity|]. split; [|split].
  - rewrite value_counts_total. unfold transform_size. rewrite length_map.
    unfold ids. rewrite cumsum_length. unfold any_axis1.
    rewrite length_map, length_seq. reflexivity.
  - unfold value_counts_sorted. rewrite map_map. cbn [fst]. rewrite map_id.
    apply filter_sorted, seq_sorted.
  - apply Forall_forall. intros [L m] Hlm. cbn [fst snd].
    unfold value_counts_sorted in Hlm. apply in_map_iff in Hlm.
    destruct Hlm as [v [E Hv]]. injection E as -> <-.
    apply filter_In in Hv. destruct Hv as [_ Hv]. apply existsb_eqb_In in Hv.
    split; [|split].
    + unfold transform_size in Hv. apply in_map_iff in Hv.
      destruct Hv as [g [<- Hg]].
      apply (proj1 (count_occ_In Nat.eq_dec ids g)) in Hg. lia.
    + apply (proj1 (count_occ_In Nat.eq_dec _ L)) in Hv. lia.
    + unfold transform_size. rewrite count_occ_map_filter.
      apply (rows_of_size_divide L (List.length ids)). apply Nat.le_refl.
Qed.

Lemma X19_run_lengths_count_rows_witness :
  let df := [("unix_ms", NumCol [Fin 1; Fin 1; Fin 2; Fin 3; Fin 3; NaN; NaN]);
             ("AF7", NumCol [Fin 5; Fin 5; Fin 5; Fin 6; Fin 6; Fin 0; Fin 0])] in
  get_consecutive_duplicates df ["unix_ms"] = Ok [(1%nat, 3%nat); (2%nat, 4%nat)]
  /\ exists dist,
       get_consecutive_duplicates df ["unix_ms"; "AF7"] = Ok dist
       /\ list_sum (map snd dist) = 7%nat.
Proof.
  intros df. split; [reflexivity|].
  destruct (X19_run_lengths_count_rows df ["unix_ms"; "AF7"]) as [dist [E [Hs _]]].
  - discriminate.
  - intros k [<-|[<-|[]]]; vm_compute; auto.
  - exists dist. split; [exact E | exact Hs].
Defined.

(** ** The text histogram *)

Lemma fold_Qmin_le_init (r : list Q) : forall a, fold_left Qmin r a <= a.
Proof.
  induction r as [|p r IH]; intros a; simpl; [apply Qle_refl|].
  eapply Qle_trans; [apply IH | apply Q.le_min_l].
Qed.

Lemma fold_Qmin_lower (r : list Q) :
  forall a q, In q (a :: r) -> fold_left Qmin r a <= q.
Proof.
  induction r as [|p r IH]; intros a q Hq; simpl.
  - destruct Hq as [<-|[]]. apply Qle_refl.
  - destruct Hq as [<-|[<-|Hq]].
    + eapply Qle_trans; [apply fold_Qmin_le_init | apply Q.le_min_l].
    + eapply Qle_trans; [apply fold_Qmin_le_init | apply Q.le_min_r].
    + apply IH. right. exact Hq.
Qed.

Lemma fold_Qmax_ge_init (r : list Q) : forall a, a <= fold_left Qmax r a.
Proof.
  induction r as [|p r IH]; intros a; simpl; [apply Qle_refl|].
  eapply Qle_trans; [apply Q.le_max_l | apply IH].
Qed.

Lemma fold_Qmax_upper (r : list Q) :
  forall a q, In q (a :: r) -> q <= fold_left Qmax r a.
Proof.
  induction r as [|p r IH]; intros a q Hq; simpl.
  - destruct Hq as [<-|[]]. apply Qle_refl.
  - destruct Hq as [<-|[<-|Hq]].
    + eapply Qle_trans; [apply Q.le_max_l | apply fold_Qmax_ge_init].
    + eapply Qle_trans; [apply Q.le_max_r | apply fold_Qmax_ge_init].
    + apply IH. right. exact Hq.
Qed.

Lemma existsb_isnan_Fin (qs : list Q) : existsb isnan (map Fin qs) = false.
Proof. induction qs as [|q qs IH]; simpl; [reflexivity | exact IH]. Qed.

Lemma Forall2_nth_error {A B : Type} (R : A -> B -> Prop) (l : list A) (l' : list B) :
  Forall2 R l l' ->
  forall i x, nth_error l i = Some x -> exists y, nth_error l' i = Some y /\ R x y.
Proof.
  induction 1 as [|a b l l' Hab _ IH]; intros i x Hx; destruct i; simpl in *;
    try discriminate.
  - injection Hx as <-. exists b. split; [reflexivity | exact Hab].
  - apply IH. exact Hx.
Qed.

(** A scaled value between 0 and 1 selects a tick: the lowest at 0, the
    highest at 1. *)
Lemma tick_in_range (x : Q) :
  0 <= x -> x <= 1 ->
  exists c, tick (Fin x) = Ok c /\ In c ticks
            /\ (x == 1 -> c = 9608%N) /\ (x == 0 -> c = 9601%N).
Proof.
  intros H0 H1. unfold tick.
  change (of_nat (List.length ticks - 1)) with 7.
  set (y := x * 7).
  assert (Hy0 : 0 <= y) by (unfold y; lra).
  assert (Hy7 : y <= 7) by (unfold y; lra).
  unfold int_trunc. rewrite (Qle_bool_true _ _ Hy0).
  assert (Hk0 : (0 <= Qfloor y)%Z).
  { change 0%Z with (Qfloor 0). apply Qfloor_resp_le. exact Hy0. }
  assert (Hk7 : (Qfloor y <= 7)%Z).
  { change 7%Z with (Qfloor 7). apply Qfloor_resp_le. exact Hy7. }
  assert (Htop : x == 1 -> Qfloor y = 7%Z).
  { intros E. change 7%Z with (Qfloor 7). apply Qfloor_comp. unfold y. rewrite E. ring. }
  assert (Hbot : x == 0 -> Qfloor y = 0%Z).
  { intros E. change 0%Z with (Qfloor 0). apply Qfloor_comp. unfold y. rewrite E. ring. }
  assert (Hk : (Qfloor y = 0 \/ Qfloor y = 1 \/ Qfloor y = 2 \/ Qfloor y = 3
                \/ Qfloor y = 4 \/ Qfloor y = 5 \/ Qfloor y = 6 \/ Qfloor y = 7)%Z) by lia.
  destruct Hk as [E|[E|[E|[E|[E|[E|[E|E]]]]]]]; rewrite E in Htop, Hbot |- *;
    (eexists; split; [reflexivity|]; split; [simpl; tauto|]; split; intros Hx;
     [try reflexivity; specialize (Htop Hx); discriminate Htop
     |try reflexivity; specialize (Hbot Hx); discriminate Hbot]).
Qed.

(** X20.  The text histogram of a non-empty list of numbers.  When the
    largest number is zero the result is the empty string.  When all the
    numbers are one same non-zero number the function fails with a
    ValueError (the scaled values are 0/0, which [int] rejects).  In every
    other case it returns one tick per number, each one of the eight block
    characters, the highest block at every largest number and the lowest at
    every smallest. *)
Theorem X20_sparkline_outcomes :
  forall (q0 : Q) (r : list Q),
    let qs := q0 :: r in
    let mx := fold_left Qmax r q0 in
    let mn := fold_left Qmin r q0 in
    (mx == 0 -> sparkline (map Fin qs) = Ok [])
    /\ (~ mx == 0 -> mn == mx ->
        sparkline (map Fin qs) = Raise (ValueError "cannot convert float NaN to integer"))
    /\ (~ mx == 0 -> ~ mn == mx ->
        exists s,
          sparkline (map Fin qs) = Ok s
          /\ List.length s = List.length qs
          /\ forall i q, nth_error qs i = Some q ->
               exists c, nth_error s i = Some c /\ In c ticks
                         /\ (q == mx -> c = 9608%N) /\ (q == mn -> c = 9601%N)).
Proof.
  intros q0 r qs mx mn.
  assert (Emax : np_max (map Fin qs) = Ok (Fin mx)).
  { unfold np_max. unfold qs at 1. cbn [map]. fold (map Fin r).
    change (Fin q0 :: map Fin r) with (map Fin qs).
    rewrite existsb_isnan_Fin, dropna_Fin. reflexivity. }
  assert (Emin : np_min (map Fin qs) = Ok (Fin mn)).
  { unfold np_min. unfold qs at 1. cbn [map]. fold (map Fin r).
    change (Fin q0 :: map Fin r) with (map Fin qs).
    rewrite existsb_isnan_Fin, dropna_Fin. reflexivity. }
  unfold sparkline. rewrite Emax. cbn [bind]. split; [|split].
  - intros Hz. apply Qeq_bool_iff in Hz. rewrite Hz. reflexivity.
  - intros Hz Hflat. rewrite (Qeq_bool_false _ _ Hz). rewrite Emin. cbn [bind].
    unfold qs. cbn [map sub div].
    assert (E : Qeq_bool (mx - mn) 0 = true).
    { apply Qeq_bool_iff. rewrite Hflat. ring. }
    rewrite E. reflexivity.
  - intros Hz Hspread. rewrite (Qeq_bool_false _ _ Hz). rewrite Emin. cbn [bind].
    rewrite map_map. cbn [sub div].
    assert (E : Qeq_bool (mx - mn) 0 = false).
    { apply Qeq_bool_false. intros H. apply Hspread. lra. }
    rewrite E.
    assert (Hlow : forall q, In q qs -> mn <= q) by (intros q Hq; apply fold_Qmin_lower; exact Hq).
    assert (Hup : forall q, In q qs -> q <= mx) by (intros q Hq; apply fold_Qmax_upper; exact Hq).
    assert (Hpos : 0 < mx - mn).
    { pose proof (Hlow q0 (or_introl eq_refl)). pose proof (Hup q0 (or_introl eq_refl)).
      destruct (Qlt_le_dec mn mx) as [Hlt|Hge]; [lra|]. exfalso. apply Hspread. lra. }
    assert (Hunit : forall q, In q qs ->
              0 <= (q - mn) / (mx - mn) /\ (q - mn) / (mx - mn) <= 1).
    { intros q Hq. pose proof (Hlow q Hq). pose proof (Hup q Hq). split.
      - apply Qle_shift_div_l; [exact Hpos | lra].
      - apply Qle_shift_div_r; [exact Hpos | lra]. }
    destruct (mapM_total tick (map (fun q => Fin ((q - mn) / (mx - mn))) qs)) as [s Hs].
    { intros v Hv. apply in_map_iff in Hv. destruct Hv as [q [<- Hq]].
      destruct (Hunit q Hq) as [Ha Hb].
      destruct (tick_in_range _ Ha Hb) as [c [Hc _]]. exists c. exact Hc. }
    exists s. split; [exact Hs|].
    pose proof (mapM_inv _ _ _ Hs) as HF. split.
    + rewrite <- (Forall2_length HF). apply length_map.
    + intros i q Hi.
      assert (Hq : In q qs) by (eapply nth_error_In; exact Hi).
      destruct (Forall2_nth_error _ _ _ HF i (Fin ((q - mn) / (mx - mn)))) as [c [Hc Htc]].
      { rewrite nth_error_map, Hi. reflexivity. }
      destruct (Hunit q Hq) as [Ha Hb].
      destruct (tick_in_range _ Ha Hb) as [c' [Hc' [Hin [Htop Hbot]]]].
      rewrite Hc' in Htc. injection Htc as <-.
      exists c'. split; [exact Hc|]. split; [exact Hin|]. split.
      * intros Eq. apply Htop. rewrite Eq. field. lra.
      * intros Eq. apply Hbot. rewrite Eq. field. lra.
Qed.

Lemma X20_sparkline_outcomes_witness :
  sparkline (map Fin [0; 4; 1; 4]) = Ok [9601; 9608; 9602; 9608]%N
  /\ sparkline (map Fin [3; 3; 3])
     = Raise (ValueError "cannot convert float NaN to integer")
  /\ sparkline (map Fin [-2; 0]) = Ok [].
Proof.
  split; [reflexivity|]. split.
  - apply (proj1 (proj2 (X20_sparkline_outcomes 3 [3; 3]))).
    + vm_compute. discriminate.
    + reflexivity.
  - apply (proj1 (X20_sparkline_outcomes (-2) [0])). reflexivity.
Defined.

(** ** The recorder *)

Lemma deque_append_lastn {A : Type} (maxlen : nat) (l : list A) (x : A) :
  deque_append maxlen (lastn maxlen l) x = lastn maxlen (l ++ [x]).
Proof.
  unfold deque_append, lastn. rewrite !length_app. simpl (List.length [x]).
  rewrite length_skipn.
  destruct (Nat.le_gt_cases (List.length l) maxlen) as [Hle|Hgt].
  - replace (List.length l - maxlen)%nat with 0%nat by lia. simpl skipn.
    rewrite Nat.sub_0_r. reflexivity.
  - set (k := (List.length l - maxlen)%nat).
    replace (List.length l - k + 1 - maxlen)%nat with 1%nat by lia.
    replace (List.length l + 1 - maxlen)%nat with (1 + k)%nat by lia.
    rewrite <- skipn_skipn. rewrite (skipn_app k).
    replace (k - List.length l)%nat with 0%nat by lia. reflexivity.
Qed.

Lemma lastn_length {A : Type} (n : nat) (l : list A) : (List.length (lastn n l) <= n)%nat.
Proof. unfold lastn. rewrite length_skipn. lia. Qed.

Lemma fire_keeps (maxlen : nat) (channels : list string) (e : event) (s s' : state) :
  recorder_inv maxlen s -> fire maxlen channels e s = Some s' -> recorder_inv maxlen s'.
Proof.
  intros [I1 [I2 I3]]. unfold recorder_inv, tapped in *.
  destruct s as [st q vz hd cs pp cp pl]. cbn [stop_event queue viz_buffer header csv
    producer consumer pulled] in *.
  destruct e as [|found| |[[x ts]|]| | | |]; cbn [fire producer consumer stop_event queue
    viz_buffer header csv pulled].
  - intros E. injection E as <-. cbn. auto.
  - destruct pp; try discriminate. intros E. injection E as <-. cbn.
    split; [exact I1|]. split; [destruct found; exact I2|].
    intros x Hx. destruct found; discriminate Hx.
  - destruct pp; try discriminate. intros E. injection E as <-. cbn.
    split; [exact I1|]. split; [destruct st; exact I2|].
    intros x Hx. destruct st; discriminate Hx.
  - destruct pp; try discriminate. intros E. injection E as <-. cbn.
    split; [|split].
    + rewrite map_app, app_assoc, I1. reflexivity.
    + rewrite removelast_last. exact I2.
    + intros y Hy. injection Hy as <-. exists pl, ts. reflexivity.
  - destruct pp; try discriminate. intros E. injection E as <-. cbn.
    split; [exact I1|]. split; [exact I2|]. intros x Hx. discriminate Hx.
  - destruct pp as [| | |x|]; try discriminate. intros E. injection E as <-. cbn.
    split; [exact I1|]. split; [|intros y Hy; discriminate Hy].
    destruct (I3 x eq_refl) as [rest [ts Hpl]]. rewrite Hpl in *.
    rewrite removelast_last in I2. rewrite I2, map_app. apply deque_append_lastn.
  - destruct pp; destruct cp; try discriminate; intros E; injection E as <-; cbn; auto.
  - destruct pp; destruct cp; try discriminate; intros E; injection E as <-; cbn; auto.
  - destruct cp; try (destruct pp; discriminate).
    destruct q as [|r rest]; destruct pp; intros E; injection E as <-; cbn;
      (split; [try exact I1; rewrite <- app_assoc; exact I1 | split; [exact I2 | exact I3]]).
Qed.

Lemma run_keeps (maxlen : nat) (channels : list string) (evs : list event) :
  forall s s', recorder_inv maxlen s -> run maxlen channels evs s = Some s' ->
               recorder_inv maxlen s'.
Proof.
  induction evs as [|e evs IH]; intros s s' Hs; simpl.
  - intros E. injection E as <-. exact Hs.
  - destruct (fire maxlen channels e s) as [s1|] eqn:E1; [|discriminate].
    apply IH. exact (fire_keeps maxlen channels e s s1 Hs E1).
Qed.

Lemma start_inv (maxlen : nat) : recorder_inv maxlen start.
Proof.
  split; [reflexivity|]. split; [reflexivity|]. intros x Hx. discriminate Hx.
Qed.

(** X21.  The recorder neither loses, repeats nor reorders a sample while
    it runs.  After any sequence of events of one stream, the rows written
    to the file followed by the rows waiting in the queue are exactly the
    samples the inlet delivered, in the order of delivery, each as
    [lsl_ts * 1000, lsl_ts] followed by its values; and the plot buffer
    holds the most recent samples that went through the tap, never more
    than [maxlen] of them. *)
Theorem X21_recorder_keeps_every_sample :
  forall (maxlen : nat) (channels : list string) (evs : list event) (s : state),
    run maxlen channels evs start = Some s ->
    csv s ++ queue s = map (fun p => row_of (fst p) (snd p)) (pulled s)
    /\ Forall (fun r => nth 0 r 0 = nth 1 r 0 * 1000) (csv s)
    /\ viz_buffer s = lastn maxlen (tapped s)
    /\ (List.length (viz_buffer s) <= maxlen)%nat.
Proof.
  intros maxlen channels evs s Hrun.
  destruct (run_keeps maxlen channels evs start s (start_inv maxlen) Hrun) as [I1 [I2 _]].
  split; [exact I1|]. split; [|split; [exact I2 | rewrite I2; apply lastn_length]].
  assert (Hall : Forall (fun r => nth 0 r 0 = nth 1 r 0 * 1000) (csv s ++ queue s)).
  { rewrite I1. apply Forall_forall. intros r Hr. apply in_map_iff in Hr.
    destruct Hr as [[x ts] [<- _]]. reflexivity. }
  apply Forall_app in Hall. exact (proj1 Hall).
Qed.

Lemma X21_recorder_keeps_every_sample_witness :
  let evs := [Resolve true; OpenFile; ProducerTest; Pull (Some ([1; 2; 3], 7)); Tap;
              ConsumerTest; Get; ProducerTest; Pull (Some ([4; 5; 6], 8)); Tap] in
  let s := mkRecorder false [[8000; 8; 4; 5; 6]] [[4; 5; 6]]
             (Some ["unix_ms"; "lsl_unix_ts"; "X"; "Y"; "Z"]) [[7000; 7; 1; 2; 3]]
             PTest CTest [([1; 2; 3], 7); ([4; 5; 6], 8)] in
  run 1 ["X"; "Y"; "Z"] evs start = Some s
  /\ csv s ++ queue s = map (fun p => row_of (fst p) (snd p)) (pulled s).
Proof.
  intros evs s.
  assert (E : run 1 ["X"; "Y"; "Z"] evs start = Some s) by (vm_compute; reflexivity).
  split; [exact E|].
  exact (proj1 (X21_recorder_keeps_every_sample 1 ["X"; "Y"; "Z"] evs s E)).
Defined.

Lemma fire_after_done (maxlen : nat) (channels : list string) (e : event) (s s' : state) :
  consumer s = CDone -> fire maxlen channels e s = Some s' ->
  consumer s' = CDone /\ csv s' = csv s.
Proof.
  intros Hc. destruct s as [st q vz hd cs pp cp pl]. cbn in Hc. subst cp.
  destruct e as [|found| |[[x ts]|]| | | |]; cbn [fire producer consumer stop_event queue
    viz_buffer header csv pulled];
    destruct pp; try discriminate; intros E; injection E as <-; split; reflexivity.
Qed.

Lemma run_after_done (maxlen : nat) (channels : list string) (evs : list event) :
  forall s s', consumer s = CDone -> run maxlen channels evs s = Some s' ->
               consumer s' = CDone /\ csv s' = csv s.
Proof.
  induction evs as [|e evs IH]; intros s s' Hc; simpl.
  - intros E. injection E as <-. split; [exact Hc | reflexivity].
  - destruct (fire maxlen channels e s) as [s1|] eqn:E1; [|discriminate].
    destruct (fire_after_done maxlen channels e s s1 Hc E1) as [Hc1 Hcsv1].
    intros E. destruct (IH s1 s' Hc1 E) as [H1 H2]. split; [exact H1 | congruence].
Qed.

(** X22.  A sample that arrives while the recording is being stopped can
    be lost.  For every sample there is a run of the two threads in which
    the inlet delivers it and the producer queues it, yet both threads
    finish with the row still in the queue: the consumer left its loop,
    stop set and queue empty, while the producer was inside [pull_sample].
    Nothing that happens afterwards writes the row to the file. *)
Theorem X22_sample_lost_at_shutdown :
  forall (maxlen : nat) (channels : list string) (sample : list Q) (lsl_ts : Q),
    exists evs s,
      run maxlen channels evs start = Some s
      /\ pulled s = [(sample, lsl_ts)]
      /\ queue s = [row_of sample lsl_ts]
      /\ producer s = PDone /\ consumer s = CDone
      /\ forall evs' s', run maxlen channels evs' s = Some s' -> csv s' = [].
Proof.
  intros maxlen channels sample lsl_ts.
  exists [Resolve true; OpenFile; ProducerTest; Stop; ConsumerTest;
          Pull (Some (sample, lsl_ts)); Tap; ProducerTest].
  exists (mkRecorder true [row_of sample lsl_ts] (deque_append maxlen [] sample)
            (Some ("unix_ms" :: "lsl_unix_ts" :: channels)) [] PDone CDone
            [(sample, lsl_ts)]).
  split; [reflexivity|].
  split; [reflexivity|]. split; [reflexivity|]. split; [reflexivity|].
  split; [reflexivity|].
  intros evs' s' Hrun.
  apply run_after_done in Hrun; [|reflexivity].
  destruct Hrun as [_ H]. exact H.
Qed.
